(** * Line-item extraction webhook: a shallow embedding of [webhook_app_final.py]

    The development follows the source file top to bottom:

    - [Unicode]   : the two character categories the regular expressions
                    and [str.strip] consult ([\d], [\s]);
    - [Re]        : the fragment of Python's [re] engine the program uses,
                    as a backtracking matcher with named groups, the
                    scanner behind [finditer] and [sub], and a declarative
                    semantics the matcher is proved sound and complete for;
    - [Builtins]  : [float], [str.strip], [str.lower], [str.rsplit], [str];
    - [App]       : [allowed_file], [extract_bill_items_regex] and the
                    [ocr_webhook] handler, in an error monad with an event
                    log for the file and OCR effects. *)

From Stdlib Require Import Ascii String Decimal DecimalString DecimalNat.
From Stdlib Require Import Bool NArith ZArith QArith Qreduction Lia List.
Import ListNotations.

Set Implicit Arguments.
Close Scope Q_scope.
Open Scope nat_scope.

(** A Python [str] is a sequence of Unicode code points. *)
Definition char := N.
Definition text := list char.

Definition ch (a : ascii) : char := N_of_ascii a.

Fixpoint of_string (s : string) : text :=
  match s with
  | EmptyString => []
  | String a s' => ch a :: of_string s'
  end.

(* ------------------------------------------------------------------ *)
(** * Character categories *)

Module Unicode.

(** Code points of the digit zero of every decimal-digit run (category
    Nd, Unicode 14.0 as shipped with CPython 3.11).  Each run is ten
    consecutive code points with values 0..9. *)
Definition decimal_zeros : list N :=
  [48; 1632; 1776; 1984; 2406; 2534; 2662; 2790; 2918; 3046; 3174; 3302;
   3430; 3558; 3664; 3792; 3872; 4160; 4240; 6112; 6160; 6470; 6608; 6784;
   6800; 6992; 7088; 7232; 7248; 42528; 43216; 43264; 43472; 43504; 43600;
   44016; 65296; 66720; 68912; 69734; 69872; 69942; 70096; 70384; 70736;
   70864; 71248; 71360; 71472; 71904; 72016; 72784; 73040; 73120; 92768;
   92864; 93008; 120782; 120792; 120802; 120812; 120822; 123200; 123632;
   125264; 130032]%N.

(** [Py_UNICODE_TODECIMAL]: the digit value, if the code point is a
    decimal digit. *)
Fixpoint to_decimal_in (zeros : list N) (c : char) : option N :=
  match zeros with
  | [] => None
  | z :: zs =>
      if ((z <=? c) && (c <? z + 10))%N then Some (c - z)%N
      else to_decimal_in zs c
  end.

Definition to_decimal (c : char) : option N := to_decimal_in decimal_zeros c.

(** [Py_UNICODE_ISDECIMAL], the test behind [\d] on a [str] pattern. *)
Definition is_decimal (c : char) : bool :=
  match to_decimal c with Some _ => true | None => false end.

(** [Py_UNICODE_ISSPACE], the test behind [\s] and [str.strip]. *)
Definition is_space (c : char) : bool :=
  (((9 <=? c) && (c <=? 13)) || ((28 <=? c) && (c <=? 32))
   || (c =? 133) || (c =? 160) || (c =? 5760)
   || ((8192 <=? c) && (c <=? 8202))
   || (c =? 8232) || (c =? 8233) || (c =? 8239) || (c =? 8287)
   || (c =? 12288))%N.

End Unicode.

(* ------------------------------------------------------------------ *)
(** * The regular-expression engine *)

Module Re.

(** ** Syntax *)

(** Members of a bracketed set, and the two category escapes. *)
Inductive citem : Type :=
| Lit (c : char)
| Rng (lo hi : char)
| CatDigit
| CatSpace.

Definition cset := list citem.

Definition in_citem (i : citem) (c : char) : bool :=
  match i with
  | Lit a => (c =? a)%N
  | Rng lo hi => ((lo <=? c) && (c <=? hi))%N
  | CatDigit => Unicode.is_decimal c
  | CatSpace => Unicode.is_space c
  end.

Definition in_cset (cs : cset) (c : char) : bool :=
  existsb (fun i => in_citem i c) cs.

(** The operators occurring in the program's patterns.  A repetition
    of a single-character item carries its greediness and its bounds
    ([None] is "no upper bound"); [Opt] is the greedy [(?:...)?]. *)
Inductive regex : Type :=
| One (cs : cset)
| Repeat (greedy : bool) (lo : nat) (hi : option nat) (cs : cset)
| Seq (r1 r2 : regex)
| Opt (r : regex)
| Group (name : string) (r : regex).

(** ** Group bindings *)

Definition captures := list (string * text).

Fixpoint group (g : string) (caps : captures) : option text :=
  match caps with
  | [] => None
  | (g', w) :: rest => if String.eqb g g' then Some w else group g rest
  end.

Definition bind_group (g : string) (w : text) (caps : captures) : captures :=
  (g, w) :: caps.

(** ** The backtracking matcher

    Continuation-passing: [k] is "the rest of the pattern", called with
    the remaining input and the bindings made so far; a [None] from the
    continuation makes the operator try its next alternative. *)

Definition outcome := option (text * captures).
Definition cont := text -> captures -> outcome.

Definition can_more (hi : option nat) : bool :=
  match hi with Some 0 => false | _ => true end.

Definition dec (hi : option nat) : option nat :=
  match hi with Some n => Some (pred n) | None => None end.

(** Greedy repetition: longest run first, then give back one by one. *)
Fixpoint rep_max (cs : cset) (lo : nat) (hi : option nat)
         (k : text -> outcome) (s : text) {struct s} : outcome :=
  let stop := match lo with 0 => k s | S _ => None end in
  match s with
  | c :: s' =>
      if in_cset cs c && can_more hi then
        match rep_max cs (pred lo) (dec hi) k s' with
        | Some r => Some r
        | None => stop
        end
      else stop
  | [] => stop
  end.

(** Lazy repetition: the minimum first, then one more at a time. *)
Fixpoint rep_min (cs : cset) (lo : nat) (hi : option nat)
         (k : text -> outcome) (s : text) {struct s} : outcome :=
  let more :=
    match s with
    | c :: s' =>
        if in_cset cs c && can_more hi
        then rep_min cs (pred lo) (dec hi) k s'
        else None
    | [] => None
    end in
  match lo with
  | 0 => match k s with Some r => Some r | None => more end
  | S _ => more
  end.

Fixpoint run (r : regex) (k : cont) (s : text) (caps : captures) : outcome :=
  match r with
  | One cs =>
      match s with
      | c :: s' => if in_cset cs c then k s' caps else None
      | [] => None
      end
  | Repeat true lo hi cs => rep_max cs lo hi (fun s' => k s' caps) s
  | Repeat false lo hi cs => rep_min cs lo hi (fun s' => k s' caps) s
  | Seq r1 r2 => run r1 (run r2 k) s caps
  | Opt r1 =>
      match run r1 k s caps with
      | Some res => Some res
      | None => k s caps
      end
  | Group g r1 =>
      run r1 (fun s' caps' =>
                k s' (bind_group g (firstn (length s - length s') s) caps'))
          s caps
  end.

(** One match attempt at the head of [s].  With [must_advance] the
    attempt rejects an empty match, as the engine does right after it
    has reported an empty match at the same place.  The result is the
    length of the match and its groups. *)
Definition match_at (r : regex) (must_advance : bool) (s : text)
  : option (nat * captures) :=
  match run r (fun s' caps =>
                 if must_advance && (length s' =? length s)%nat then None
                 else Some (s', caps)) s [] with
  | Some (s', caps) => Some (length s - length s', caps)
  | None => None
  end.

(** ** The scanner shared by [finditer] and [sub] *)

Record Match : Type := mkMatch {
  m_start : nat;
  m_end : nat;
  m_groups : captures
}.

(** The scanner cuts the text into matches and the characters between. *)
Inductive segment : Type :=
| Gap (c : char)
| Hit (m : Match).

(** [scan r pos s skip]: [s] is the text from offset [pos] on, and the
    first [skip] characters of it belong to the match reported last.
    After a match the search resumes where the match ended; after an
    empty match it resumes at the same offset and must advance; when no
    match starts at an offset the search moves one character on. *)
Fixpoint scan (r : regex) (pos : nat) (s : text) (skip : nat) {struct s}
  : list segment :=
  match skip with
  | S n =>
      match s with
      | [] => []
      | _ :: s' => scan r (S pos) s' n
      end
  | 0 =>
      match s with
      | [] =>
          match match_at r false [] with
          | Some (_, caps) => [Hit (mkMatch pos pos caps)]
          | None => []
          end
      | c :: s' =>
          match match_at r false s with
          | Some (S n, caps) =>
              Hit (mkMatch pos (pos + S n) caps) :: scan r (S pos) s' n
          | Some (0, caps) =>
              Hit (mkMatch pos pos caps) ::
              match match_at r true s with
              | Some (S n, caps') =>
                  Hit (mkMatch pos (pos + S n) caps') :: scan r (S pos) s' n
              | _ => Gap c :: scan r (S pos) s' 0
              end
          | None => Gap c :: scan r (S pos) s' 0
          end
      end
  end.

Fixpoint hits (segs : list segment) : list Match :=
  match segs with
  | [] => []
  | Gap _ :: rest => hits rest
  | Hit m :: rest => m :: hits rest
  end.

(** [pattern.finditer(text)]: the non-overlapping matches, left to right. *)
Definition finditer (r : regex) (s : text) : list Match :=
  hits (scan r 0 s 0).

(** [re.sub(pattern, repl, text)] with a replacement free of group
    references: every match is replaced, the rest is copied. *)
Fixpoint splice (repl : text) (segs : list segment) : text :=
  match segs with
  | [] => []
  | Gap c :: rest => c :: splice repl rest
  | Hit _ :: rest => repl ++ splice repl rest
  end.

Definition sub (r : regex) (repl : text) (s : text) : text :=
  splice repl (scan r 0 s 0).

(** ** Declarative semantics

    [sem r w caps caps']: the word [w] is in the language of [r], and
    matching it turns the bindings [caps] into [caps']. *)
Definition within (n lo : nat) (hi : option nat) : Prop :=
  lo <= n /\ match hi with Some h => n <= h | None => True end.

Inductive sem : regex -> text -> captures -> captures -> Prop :=
| sem_One cs c caps :
    in_cset cs c = true -> sem (One cs) [c] caps caps
| sem_Repeat g lo hi cs w caps :
    forallb (in_cset cs) w = true -> within (length w) lo hi ->
    sem (Repeat g lo hi cs) w caps caps
| sem_Seq r1 r2 w1 w2 caps caps1 caps2 :
    sem r1 w1 caps caps1 -> sem r2 w2 caps1 caps2 ->
    sem (Seq r1 r2) (w1 ++ w2) caps caps2
| sem_Opt_skip r caps :
    sem (Opt r) [] caps caps
| sem_Opt_take r w caps caps' :
    sem r w caps caps' -> sem (Opt r) w caps caps'
| sem_Group g r w caps caps' :
    sem r w caps caps' -> sem (Group g r) w caps (bind_group g w caps').

(** [w] occurs in [t] as a match of [r]: some slice of [t] is a word
    of the language. *)
Definition occurs (r : regex) (t : text) : Prop :=
  exists p w q caps, t = p ++ w ++ q /\ sem r w [] caps.

(** The match [m], reported for the text [s] that begins at offset
    [pos], lies where its span says: [s] is [p ++ w ++ q] with [w] a
    word of the language that binds the groups of [m]. *)
Definition located (r : regex) (pos : nat) (s : text) (m : Match) : Prop :=
  exists p w q,
    s = p ++ w ++ q /\ sem r w [] (m_groups m) /\
    m_start m = pos + length p /\ m_end m = m_start m + length w.

(** [pattern.search(text) is not None] *)
Fixpoint search (r : regex) (s : text) : bool :=
  match match_at r false s with
  | Some _ => true
  | None =>
      match s with
      | [] => false
      | _ :: s' => search r s'
      end
  end.

(** No word of the language is empty. *)
Definition never_empty (r : regex) : Prop :=
  forall w caps caps', sem r w caps caps' -> w <> [].

(** Length of the shortest word. *)
Fixpoint min_len (r : regex) : nat :=
  match r with
  | One _ => 1
  | Repeat _ lo _ _ => lo
  | Seq r1 r2 => min_len r1 + min_len r2
  | Opt _ => 0
  | Group _ r1 => min_len r1
  end.

(** No group inside. *)
Fixpoint groupless (r : regex) : bool :=
  match r with
  | One _ | Repeat _ _ _ _ => true
  | Seq r1 r2 => groupless r1 && groupless r2
  | Opt r1 => groupless r1
  | Group _ _ => false
  end.

(** The spans of [ms] lie in [[from, upto]], are non-empty, and follow
    one another from left to right without overlap. *)
Fixpoint in_order (from upto : nat) (ms : list Match) : Prop :=
  match ms with
  | [] => True
  | m :: rest =>
      from <= m_start m /\ m_start m < m_end m /\ m_end m <= upto /\
      in_order (m_end m) upto rest
  end.

End Re.

(* ------------------------------------------------------------------ *)
(** * Exceptions and the error monad *)

(** The exceptions the program can meet.  The detail string of the
    rejection depends on the iteration order of a [set], so it is kept
    symbolic; [StrOf e] is [str(e)]. *)
Inductive exn : Type :=
| ValueError
| TypeError
| IndexError
| HostError (msg : string)
| HTTPException (status_code : nat) (d : detail)
with detail : Type :=
| UnsupportedFileType
| StrOf (e : exn).

Inductive result (A : Type) : Type :=
| Ok (a : A)
| Raise (e : exn).

Arguments Ok {A} a.
Arguments Raise {A} e.

Definition rbind {A B : Type} (x : result A) (f : A -> result B) : result B :=
  match x with
  | Ok a => f a
  | Raise e => Raise e
  end.

Declare Scope result_scope.
Delimit Scope result_scope with result.
Notation "x <- c ;; k" := (rbind c (fun x => k))
  (at level 61, c at next level, right associativity) : result_scope.

(* ------------------------------------------------------------------ *)
(** * Built-in functions of the interpreter *)

Module Builtins.

Fixpoint text_eqb (a b : text) : bool :=
  match a, b with
  | [], [] => true
  | x :: a', y :: b' => (x =? y)%N && text_eqb a' b'
  | _, _ => false
  end.

(** [x in s] for a one-character [x]. *)
Definition contains (c : char) (s : text) : bool :=
  existsb (fun x => (x =? c)%N) s.

(** [str.lstrip()], [str.rstrip()], [str.strip()] without argument. *)
Fixpoint lstrip (s : text) : text :=
  match s with
  | c :: s' => if Unicode.is_space c then lstrip s' else s
  | [] => []
  end.

Definition rstrip (s : text) : text := rev (lstrip (rev s)).

Definition strip (s : text) : text := rstrip (lstrip s).

(** [str.lower()] on the ASCII letters.  Outside ASCII only U+212A
    lowers to an ASCII letter ([k]) and U+0130 to a sequence containing
    one ([i]); neither letter occurs in the allowed extensions, so
    membership of a lowered suffix in that set is decided exactly. *)
Definition lower_char (c : char) : char :=
  if ((65 <=? c) && (c <=? 90))%N then (c + 32)%N else c.

Definition lower (s : text) : text := map lower_char s.

(** The split point of [s.rsplit(sep, 1)]: the text before and after
    the last [sep], if there is one. *)
Fixpoint rsplit_last (sep : char) (s : text) : option (text * text) :=
  match s with
  | [] => None
  | c :: s' =>
      match rsplit_last sep s' with
      | Some (a, b) => Some (c :: a, b)
      | None => if (c =? sep)%N then Some ([], s') else None
      end
  end.

Definition rsplit1 (sep : char) (s : text) : list text :=
  match rsplit_last sep s with
  | Some (a, b) => [a; b]
  | None => [s]
  end.

(** [l[i]] *)
Definition index {A : Type} (l : list A) (i : nat) : result A :=
  match nth_error l i with
  | Some a => Ok a
  | None => Raise IndexError
  end.

(** [str(n)] for a non-negative integer. *)
Definition str_of_nat (n : nat) : string :=
  NilEmpty.string_of_uint (Nat.to_uint n).

(** The longest prefix of decimal digits, and the rest. *)
Fixpoint span_digits (s : text) : text * text :=
  match s with
  | c :: s' =>
      if Unicode.is_decimal c
      then let (d, rest) := span_digits s' in (c :: d, rest)
      else ([], s)
  | [] => ([], [])
  end.

(** Value of a digit string read in base ten. *)
Fixpoint digits_value (acc : N) (s : text) : option N :=
  match s with
  | [] => Some acc
  | c :: s' =>
      match Unicode.to_decimal c with
      | Some d => digits_value (acc * 10 + d)%N s'
      | None => None
      end
  end.

(** [float(s)] on the literals [digits], [digits.digits], [digits.] and
    [.digits] (digits of any script, as the interpreter accepts them).
    The value is the exact rational the literal denotes, in lowest
    terms; the rounding to binary64 the interpreter applies to it is
    not modelled (it keeps the sign, and sends a literal beyond the
    binary64 range to infinity).  Signs, exponents, underscores, surrounding blanks
    and the special values, which the interpreter also accepts, raise
    here: the patterns of this program never capture them. *)
Definition float (s : text) : result Q :=
  let (ip, rest) := span_digits s in
  match rest with
  | [] =>
      match ip, digits_value 0 ip with
      | _ :: _, Some n => Ok (Qred (Z.of_N n # 1))
      | _, _ => Raise ValueError
      end
  | c :: fp =>
      if (c =? ch ".")%N then
        match ip ++ fp, digits_value 0 (ip ++ fp) with
        | _ :: _, Some n =>
            Ok (Qred (Z.of_N n # Z.to_pos (10 ^ Z.of_nat (length fp))))
        | _, _ => Raise ValueError
        end
      else Raise ValueError
  end.

End Builtins.

(* ------------------------------------------------------------------ *)
(** * The application *)

Module App.

Import Re Builtins.

Definition lit (a : ascii) : citem := Lit (ch a).
Definition rng (a b : ascii) : citem := Rng (ch a) (ch b).
Arguments lit a%_char.
Arguments rng a%_char b%_char.

Infix ";;" := Seq (at level 61, right associativity).

(** ** Configuration *)

(** [ALLOWED_EXTENSIONS = {"pdf", "png", "jpg", "jpeg"}] *)
Definition ALLOWED_EXTENSIONS : list text :=
  [of_string "pdf"; of_string "png"; of_string "jpg"; of_string "jpeg"].

Definition member (x : text) (l : list text) : bool :=
  existsb (text_eqb x) l.

(** [allowed_file]: the right operand of [and] is evaluated only when
    the left one holds. *)
Definition allowed_file (filename : text) : result bool :=
  if contains (ch ".") filename then
    (ext <- index (rsplit1 (ch ".") filename) 1 ;;
     Ok (member (lower ext) ALLOWED_EXTENSIONS))%result
  else Ok false.

(** ** The three layout patterns *)

(** [\d+], [\s+] and [\d+(?:\.\d+)?] *)
Definition digits : regex := Repeat true 1 None [CatDigit].
Definition blanks : regex := Repeat true 1 None [CatSpace].
Definition number : regex := digits ;; Opt (One [lit "."] ;; digits).

(** [[A-Za-z0-9\-\(\)\/\., ]] *)
Definition pharmacy_set : cset :=
  [rng "A" "Z"; rng "a" "z"; rng "0" "9"; lit "-"; lit "("; lit ")";
   lit "/"; lit "."; lit ","; lit " "].

(** [[A-Za-z0-9\-\|\.\(\)\/, ]] *)
Definition hospital_set : cset :=
  [rng "A" "Z"; rng "a" "z"; rng "0" "9"; lit "-"; lit "|"; lit ".";
   lit "("; lit ")"; lit "/"; lit ","; lit " "].

(** Quantity, rate and amount, each after a run of blanks. *)
Definition triple : regex :=
  Group "qty" number ;; blanks ;;
  Group "rate" number ;; blanks ;;
  Group "amount" number.

(** Pharmacy style: SL + Description + Qty + Rate + Amount *)
Definition pharmacy : regex :=
  Opt (digits ;; blanks) ;;
  Group "name" (Repeat false 1 None pharmacy_set) ;; blanks ;;
  triple.

(** Hospital style: Description + Qty + Rate + Net Amount *)
Definition hospital : regex :=
  Group "name" (Repeat false 1 None hospital_set) ;; blanks ;;
  triple.

(** [\d{1,2}\/\d{1,2}\/\d{2,4}] *)
Definition date : regex :=
  Repeat true 1 (Some 2) [CatDigit] ;; One [lit "/"] ;;
  Repeat true 1 (Some 2) [CatDigit] ;; One [lit "/"] ;;
  Repeat true 2 (Some 4) [CatDigit].

(** Investigation style: Description + Date + Qty + Rate + Amount *)
Definition investigation : regex :=
  Group "name" (Repeat false 1 None pharmacy_set) ;; blanks ;;
  date ;; blanks ;;
  triple.

Definition patterns : list regex := [pharmacy; hospital; investigation].

(** ** Extraction *)

Record LineItem : Type := mkItem {
  item_name : text;
  item_quantity : Q;
  item_rate : Q;
  item_amount : Q
}.

(** [m.group(g)]; a group that took no part in the match yields [None],
    which neither [re.sub] nor [float] accepts. *)
Definition group_text (g : string) (m : Match) : result text :=
  match group g (m_groups m) with
  | Some w => Ok w
  | None => Raise TypeError
  end.

(** [re.sub(r"\s+", " ", raw).strip()] *)
Definition normalize_name (raw : text) : text :=
  strip (sub blanks (of_string " ") raw).

(** The body of the inner loop, up to the record it appends. *)
Definition item_of_match (m : Match) : result LineItem :=
  (raw <- group_text "name" m ;;
   let name := normalize_name raw in
   q <- group_text "qty" m ;;
   qty <- float q ;;
   r <- group_text "rate" m ;;
   rate <- float r ;;
   a <- group_text "amount" m ;;
   amount <- float a ;;
   Ok (mkItem name qty rate amount))%result.

(** [for m in pattern.finditer(text): ... items.append(...)] *)
Fixpoint for_matches (ms : list Match) (items : list LineItem)
  : result (list LineItem) :=
  match ms with
  | [] => Ok items
  | m :: ms' =>
      (it <- item_of_match m ;;
       for_matches ms' (items ++ [it]))%result
  end.

(** [for pattern in patterns: ...] *)
Fixpoint for_patterns (ps : list regex) (t : text) (items : list LineItem)
  : result (list LineItem) :=
  match ps with
  | [] => Ok items
  | p :: ps' =>
      (items' <- for_matches (finditer p t) items ;;
       for_patterns ps' t items')%result
  end.

Definition extract_bill_items_regex (t : text) : result (list LineItem) :=
  for_patterns patterns t [].

(** ** The request handler *)

Definition UPLOAD_FOLDER : string := "uploads".

(** [os.path.join(UPLOAD_FOLDER, file.filename)], kept as the pair. *)
Definition path : Type := string * text.

Definition bytes : Type := list Byte.byte.

Record UploadFile : Type := mkUpload {
  filename : text;
  content : bytes
}.

(** What the handler does to the world outside, in order. *)
Inductive event : Type :=
| EvWrite (p : path)
| EvPdfOcr (p : path)
| EvImageOcr
| EvRemove (p : path).

(** The collaborators: the file system, and the OCR stage, given by the
    text it recognises (for a PDF, the text of every page in page
    order).  Each may raise. *)
Record Host : Type := mkHost {
  write_file : path -> bytes -> result unit;
  path_exists : path -> bool;
  recognize_pdf : path -> result (list text);
  recognize_image : bytes -> result text
}.

(** Computations that log events and may raise. *)
Definition IO (A : Type) : Type := list event -> result A * list event.

Definition ret {A : Type} (a : A) : IO A := fun log => (Ok a, log).

Definition raise {A : Type} (e : exn) : IO A := fun log => (Raise e, log).

Definition bind {A B : Type} (c : IO A) (f : A -> IO B) : IO B :=
  fun log =>
    match c log with
    | (Ok a, log') => f a log'
    | (Raise e, log') => (Raise e, log')
    end.

Definition lift {A : Type} (x : result A) : IO A := fun log => (x, log).

Definition emit (ev : event) : IO unit := fun log => (Ok tt, log ++ [ev]).

(** [try: body except Exception as e: handler(e)] *)
Definition try_except {A : Type} (body : IO A) (handler : exn -> IO A)
  : IO A :=
  fun log =>
    match body log with
    | (Ok a, log') => (Ok a, log')
    | (Raise e, log') => handler e log'
    end.

Declare Scope io_scope.
Delimit Scope io_scope with io.
Notation "x <- c ;; k" := (bind c (fun x => k))
  (at level 61, c at next level, right associativity) : io_scope.
Notation "c ;; k" := (bind c (fun _ => k))
  (at level 61, right associativity) : io_scope.

(** Keys of the [extracted] dictionary: page numbers for a PDF, the
    string ["page_1"] for an image. *)
Inductive page_key : Type :=
| KInt (n : nat)
| KStr (s : string).

(** [simple_pdf_ocr]: [all_text[page_num + 1] = text] for every page. *)
Fixpoint number_pages (pages : list text) (page_num : nat)
  : list (page_key * text) :=
  match pages with
  | [] => []
  | t :: rest => (KInt (page_num + 1), t) :: number_pages rest (S page_num)
  end.

Definition simple_pdf_ocr (h : Host) (p : path)
  : IO (list (page_key * text)) :=
  (emit (EvPdfOcr p) ;;
   pages <- lift (recognize_pdf h p) ;;
   ret (number_pages pages 0))%io.

Definition simple_image_ocr (h : Host) (b : bytes) : IO text :=
  (emit EvImageOcr ;; lift (recognize_image h b))%io.

Record PageEntry : Type := mkPage {
  page_no : string;
  page_type : string;
  bill_items : list LineItem
}.

Record Response : Type := mkResponse {
  is_success : bool;
  total_tokens : nat;
  input_tokens : nat;
  output_tokens : nat;
  pagewise_line_items : list PageEntry;
  total_item_count : nat
}.

(** [for idx, (page_no, text) in enumerate(extracted.items()): ...] *)
Fixpoint for_pages (extracted : list (page_key * text)) (idx : nat)
         (page_items : list PageEntry) (total_item_count : nat)
  : result (list PageEntry * nat) :=
  match extracted with
  | [] => Ok (page_items, total_item_count)
  | (_, t) :: rest =>
      (items <- extract_bill_items_regex t ;;
       for_pages rest (S idx)
         (page_items ++ [mkPage (str_of_nat (idx + 1)) "Bill Detail" items])
         (total_item_count + length items))%result
  end.

Definition ocr_webhook (h : Host) (file : UploadFile) : IO Response :=
  try_except
    (ok <- lift (allowed_file (filename file)) ;;
     if negb ok then raise (HTTPException 400 UnsupportedFileType)
     else
       let file_path := (UPLOAD_FOLDER, filename file) in
       let file_bytes := content file in
       emit (EvWrite file_path) ;;
       lift (write_file h file_path file_bytes) ;;
       suffix <- lift (index (rsplit1 (ch ".") (filename file)) 1) ;;
       let ext := lower suffix in
       extracted <-
         (if text_eqb ext (of_string "pdf")
          then simple_pdf_ocr h file_path
          else (t <- simple_image_ocr h file_bytes ;;
                ret [(KStr "page_1", t)])) ;;
       (if path_exists h file_path then emit (EvRemove file_path)
        else ret tt) ;;
       out <- lift (for_pages extracted 0 [] 0) ;;
       ret (mkResponse true 0 0 0 (fst out) (snd out)))%io
    (fun e => raise (HTTPException 500 (StrOf e))).

End App.

(* ------------------------------------------------------------------ *)
(** * Vocabulary of the properties *)

Module Spec.

Import Re Builtins App.

(** A non-empty run of decimal digits. *)
Definition digit_run (d : text) : Prop :=
  d <> [] /\ forallb Unicode.is_decimal d = true.

(** The shape captured by [\d+(?:\.\d+)?]. *)
Definition numeral (x : text) : Prop :=
  exists ip, digit_run ip /\
    (x = ip \/ exists fp, digit_run fp /\ x = ip ++ ch "." :: fp).

Definition starts_with_space (s : text) : bool :=
  match s with
  | c :: _ => Unicode.is_space c
  | [] => false
  end.

(** Every blank is a single U+0020 that no blank follows. *)
Fixpoint single_spaced (s : text) : bool :=
  match s with
  | [] => true
  | c :: s' =>
      (if Unicode.is_space c
       then (c =? ch " ")%N && negb (starts_with_space s')
       else true) && single_spaced s'
  end.

(** A whitespace-normalized name: single-spaced, no blank at either end. *)
Definition normalized (s : text) : Prop :=
  single_spaced s = true /\ lstrip s = s /\ rstrip s = s.

(** What [re.sub(r"\s+", " ", s)] computes, as one pass: [in_run] tells
    whether the previous character was a blank. *)
Fixpoint collapse (in_run : bool) (s : text) : text :=
  match s with
  | [] => []
  | c :: s' =>
      if Unicode.is_space c
      then (if in_run then collapse true s' else ch " " :: collapse true s')
      else c :: collapse false s'
  end.

(** Length of the leading run of blanks. *)
Fixpoint run_length (s : text) : nat :=
  match s with
  | c :: s' => if Unicode.is_space c then S (run_length s') else 0
  | [] => 0
  end.

(** The bindings of a match of one of the three layouts. *)
Definition item_bindings (caps : captures) : Prop :=
  exists n q r a,
    caps = [("amount"%string, a); ("rate"%string, r); ("qty"%string, q);
            ("name"%string, n)] /\
    numeral q /\ numeral r /\ numeral a.

(** The record the extractor appends for a match. *)
Definition produces (m : Match) (it : LineItem) : Prop :=
  item_of_match m = Ok it.

(** The record invariant without the non-emptiness of the name. *)
Definition well_formed (it : LineItem) : Prop :=
  (0 <= item_quantity it)%Q /\ (0 <= item_rate it)%Q /\
  (0 <= item_amount it)%Q /\ normalized (item_name it).

(** The dictionary the OCR stage hands to the structuring loop: the
    numbered pages of a PDF, or the single entry of an image. *)
Definition ocr_output (h : Host) (file : UploadFile)
           (extracted : list (page_key * text)) : Prop :=
  (exists pages,
     recognize_pdf h (UPLOAD_FOLDER, filename file) = Ok pages /\
     extracted = number_pages pages 0) \/
  (exists t,
     recognize_image h (content file) = Ok t /\
     extracted = [(KStr "page_1", t)]).

(** Item count of a list of page entries. *)
Definition count_items (pages : list PageEntry) : nat :=
  list_sum (map (fun p => length (bill_items p)) pages).

(** ** Sample inputs *)

(** A host whose OCR stage reads two pages, the first with one line that
    the pharmacy and the hospital layout both match, the second with
    nothing tabular. *)
Definition sample_host : Host :=
  mkHost (fun _ _ => Ok tt) (fun _ => true)
         (fun _ => Ok [of_string "A 1 2 3"; of_string "Thank you"])
         (fun _ => Ok (of_string "A 1 2 3")).

Definition sample_pdf : UploadFile := mkUpload (of_string "bill.pdf") [].

Definition sample_item : LineItem :=
  mkItem (of_string "A") (1 # 1) (2 # 1) (3 # 1).

Definition sample_response : Response :=
  mkResponse true 0 0 0
    [mkPage "1" "Bill Detail" [sample_item; sample_item];
     mkPage "2" "Bill Detail" []]
    2.

Definition sample_log : list event :=
  [EvWrite (UPLOAD_FOLDER, of_string "bill.pdf");
   EvPdfOcr (UPLOAD_FOLDER, of_string "bill.pdf");
   EvRemove (UPLOAD_FOLDER, of_string "bill.pdf")].

End Spec.

(* ------------------------------------------------------------------ *)
(** * The OCR helpers and the start-up configuration *)

Module Ocr.

Import Builtins App.

(** ** Locating tesseract at import time *)




(** ** The lazily created reader *)

(** The two globals [get_ocr_reader] consults. *)
Record Globals (R : Type) : Type := mkGlobals {
  HAS_EASYOCR : bool;
  ocr_reader : option R
}.

(** [get_ocr_reader]: [new_reader] is what [easyocr.Reader(['en'],
    gpu=False)] would do if it were called now.  The result is the value
    returned (or the exception), the globals afterwards, and whether the
    constructor was called. *)
Definition get_ocr_reader {R : Type} (new_reader : result R) (g : Globals R)
  : result (option R) * Globals R * bool :=
  match ocr_reader g with
  | None =>
      if HAS_EASYOCR g then
        match new_reader with
        | Ok r => (Ok (Some r), mkGlobals (HAS_EASYOCR g) (Some r), true)
        | Raise e => (Raise e, g, true)
        end
      else (Ok None, g, false)
  | Some r => (Ok (Some r), g, false)
  end.

(** ** The text of an EasyOCR pass *)

(** One entry of [reader.readtext]: box, text, confidence. *)
Record Detection : Type := mkDetection {
  det_box : list (Z * Z);
  det_text : text;
  det_confidence : Q
}.

(** [sep.join(parts)] *)
Fixpoint join (sep : text) (parts : list text) : text :=
  match parts with
  | [] => []
  | [p] => p
  | p :: rest => p ++ sep ++ join sep rest
  end.

(** The line feed, U+000A. *)
Definition LF : text := [10%N].

(** ["\n".join([detection[1] for detection in results])] *)
Definition easyocr_text (results : list Detection) : text :=
  join LF (map det_text results).

(** ** The dictionary of a PDF *)

Definition page_key_eqb (a b : page_key) : bool :=
  match a, b with
  | KInt m, KInt n => Nat.eqb m n
  | KStr x, KStr y => String.eqb x y
  | _, _ => false
  end.

(** [d.get(k)] on the insertion-ordered entries of a dictionary. *)
Fixpoint dict_get (k : page_key) (d : list (page_key * text)) : option text :=
  match d with
  | [] => None
  | (k', v) :: rest => if page_key_eqb k k' then Some v else dict_get k rest
  end.

End Ocr.

(* ------------------------------------------------------------------ *)
(** * Further vocabulary *)

Module Shape.

Import Re Builtins App Spec Ocr.

(** A non-empty run of blanks. *)
Definition blank_run (b : text) : Prop :=
  b <> [] /\ forallb Unicode.is_space b = true.

Definition not_blank (c : char) : bool := negb (Unicode.is_space c).

(** The bindings of a layout match, spelled out. *)
Definition bindings (name q r a : text) : captures :=
  [("amount"%string, a); ("rate"%string, r); ("qty"%string, q);
   ("name"%string, name)].

(** A billing line as the three layouts see it: a name over the wider
    (hospital) set, something that begins with a blank, and three
    numerals separated by blanks. *)
Definition is_line (name mid q b2 r b3 a : text) : Prop :=
  name <> [] /\ forallb (in_cset hospital_set) name = true /\
  starts_with_space mid = true /\
  numeral q /\ blank_run b2 /\ numeral r /\ blank_run b3 /\ numeral a.

(** The text of the line. *)
Definition line_text (name mid q b2 r b3 a : text) : text :=
  name ++ mid ++ q ++ b2 ++ r ++ b3 ++ a.

(** The hospital match of the one-line text [A 1 2 3]. *)
Definition sample_match : Match :=
  mkMatch 0 7 (bindings (of_string "A") (of_string "1")
                        (of_string "2") (of_string "3")).

(** How the handler rejects an upload: the status 400 it raises, caught
    and raised again as status 500. *)
Definition rejection : exn :=
  HTTPException 500 (StrOf (HTTPException 400 UnsupportedFileType)).

(** How any other failure leaves the handler. *)
Definition failure (cause : exn) : exn := HTTPException 500 (StrOf cause).

(** The clean-up step of the handler. *)
Definition removal (h : Host) (p : path) : list event :=
  if path_exists h p then [EvRemove p] else [].


Definition sample_png : UploadFile := mkUpload (of_string "scan.PNG") [].

(** Four detections, one per field of a line. *)
Definition sample_detections : list Detection :=
  [mkDetection [] (of_string "Syrup") (9 # 10);
   mkDetection [] (of_string "2") (9 # 10);
   mkDetection [] (of_string "10.5") (8 # 10);
   mkDetection [] (of_string "21") (9 # 10)].

(** Where the handler stores the upload. *)
Definition upload_path (file : UploadFile) : path :=
  (UPLOAD_FOLDER, filename file).

End Shape.

(* ------------------------------------------------------------------ *)
(** * The matcher agrees with the declarative semantics *)

Module ReFacts.

Import Re.

Lemma within_zero hi : within 0 0 hi.
Proof. split; [lia | destruct hi; [lia | exact I]]. Qed.

Lemma within_step n lo hi :
  can_more hi = true -> within n (pred lo) (dec hi) -> within (S n) lo hi.
Proof.
  unfold within. intros Hm [Hlo Hhi]. split; [lia |].
  destruct hi as [[| h] |]; simpl in *; [discriminate | lia | exact I].
Qed.

Lemma within_pred n lo hi :
  within (S n) lo hi -> can_more hi = true /\ within n (pred lo) (dec hi).
Proof.
  unfold within. intros [Hlo Hhi].
  destruct hi as [[| h] |]; simpl in *; repeat split; auto; lia.
Qed.

Lemma within_nil lo hi : within 0 lo hi -> lo = 0.
Proof. unfold within. intros [H _]. lia. Qed.

Lemma firstn_consumed (w s' : text) :
  firstn (length (w ++ s') - length s') (w ++ s') = w.
Proof.
  rewrite length_app.
  replace (length w + length s' - length s') with (length w) by lia.
  rewrite firstn_app, Nat.sub_diag, firstn_all. simpl. apply app_nil_r.
Qed.

Section Repetition.

Variable cs : cset.
Variable k : text -> outcome.

Lemma rep_max_sound s : forall lo hi res,
  rep_max cs lo hi k s = Some res ->
  exists w s', s = w ++ s' /\ forallb (in_cset cs) w = true /\
               within (length w) lo hi /\ k s' = Some res.
Proof.
  induction s as [| c s IH]; intros lo hi res H; simpl in H.
  - destruct lo; [| discriminate].
    exists [], []. auto using within_zero.
  - assert (Hstop : match lo with 0 => k (c :: s) | S _ => None end = Some res ->
                    exists w s', c :: s = w ++ s' /\
                      forallb (in_cset cs) w = true /\
                      within (length w) lo hi /\ k s' = Some res).
    { destruct lo; [| discriminate]. intros Hk.
      exists [], (c :: s). auto using within_zero. }
    destruct (in_cset cs c) eqn:Hc; simpl in H; [| auto].
    destruct (can_more hi) eqn:Hm; [| auto].
    destruct (rep_max cs (pred lo) (dec hi) k s) as [r |] eqn:Hr; [| auto].
    inversion H; subst r; clear H.
    destruct (IH _ _ _ Hr) as (w & s' & -> & Hw & Hin & Hk).
    exists (c :: w), s'. simpl. rewrite Hc, Hw.
    auto using within_step.
Qed.

Lemma rep_min_sound s : forall lo hi res,
  rep_min cs lo hi k s = Some res ->
  exists w s', s = w ++ s' /\ forallb (in_cset cs) w = true /\
               within (length w) lo hi /\ k s' = Some res.
Proof.
  induction s as [| c s IH]; intros lo hi res H; simpl in H.
  - destruct lo; [| discriminate].
    destruct (k []) eqn:Hk; [| discriminate].
    inversion H; subst. exists [], []. auto using within_zero.
  - assert (Hmore : (if in_cset cs c && can_more hi
                     then rep_min cs (pred lo) (dec hi) k s else None)
                    = Some res ->
                    exists w s', c :: s = w ++ s' /\
                      forallb (in_cset cs) w = true /\
                      within (length w) lo hi /\ k s' = Some res).
    { destruct (in_cset cs c) eqn:Hc; simpl; [| discriminate].
      destruct (can_more hi) eqn:Hm; [| discriminate].
      intros Hr. destruct (IH _ _ _ Hr) as (w & s' & -> & Hw & Hin & Hk).
      exists (c :: w), s'. simpl. rewrite Hc, Hw.
      auto using within_step. }
    destruct lo; [| auto].
    destruct (k (c :: s)) eqn:Hk; [| auto].
    inversion H; subst. exists [], (c :: s). auto using within_zero.
Qed.

Lemma rep_max_complete w : forall lo hi s',
  forallb (in_cset cs) w = true -> within (length w) lo hi ->
  k s' <> None -> rep_max cs lo hi k (w ++ s') <> None.
Proof.
  induction w as [| c w IH]; intros lo hi s' Hw Hin Hk; simpl in *.
  - apply within_nil in Hin. subst lo.
    destruct s' as [| c s']; simpl; [exact Hk |].
    destruct (in_cset cs c && can_more hi); [| exact Hk].
    destruct (rep_max cs 0 (dec hi) k s'); [discriminate | exact Hk].
  - apply andb_prop in Hw. destruct Hw as [Hc Hw].
    apply within_pred in Hin. destruct Hin as [Hm Hin].
    rewrite Hc, Hm. simpl.
    specialize (IH _ _ _ Hw Hin Hk).
    destruct (rep_max cs (pred lo) (dec hi) k (w ++ s'));
      [discriminate | contradiction].
Qed.

Lemma rep_min_complete w : forall lo hi s',
  forallb (in_cset cs) w = true -> within (length w) lo hi ->
  k s' <> None -> rep_min cs lo hi k (w ++ s') <> None.
Proof.
  induction w as [| c w IH]; intros lo hi s' Hw Hin Hk; simpl in *.
  - apply within_nil in Hin. subst lo.
    destruct s' as [| c s']; simpl;
      destruct (k _) eqn:E; try discriminate; contradiction.
  - apply andb_prop in Hw. destruct Hw as [Hc Hw].
    apply within_pred in Hin. destruct Hin as [Hm Hin].
    rewrite Hc, Hm. simpl.
    specialize (IH _ _ _ Hw Hin Hk).
    destruct lo; [| exact IH].
    destruct (k (c :: w ++ s')); [discriminate | exact IH].
Qed.

End Repetition.

(** Soundness: a successful run consumed a word of the language and
    handed the rest, with the bindings of that word, to the
    continuation. *)
Lemma run_sound r : forall k s caps res,
  run r k s caps = Some res ->
  exists w s' caps',
    s = w ++ s' /\ sem r w caps caps' /\ k s' caps' = Some res.
Proof.
  induction r as [cs | g lo hi cs | r1 IH1 r2 IH2 | r IH | g r IH];
    intros k s caps res H; simpl in H.
  - destruct s as [| c s]; [discriminate |].
    destruct (in_cset cs c) eqn:Hc; [| discriminate].
    exists [c], s, caps. repeat split; auto. now constructor.
  - assert (Hrep : exists w s', s = w ++ s' /\
              forallb (in_cset cs) w = true /\ within (length w) lo hi /\
              k s' caps = Some res).
    { destruct g; [apply rep_max_sound in H | apply rep_min_sound in H];
        exact H. }
    destruct Hrep as (w & s' & -> & Hw & Hin & Hk).
    exists w, s', caps. repeat split; auto. now constructor.
  - apply IH1 in H. destruct H as (w1 & s1 & caps1 & -> & H1 & H).
    apply IH2 in H. destruct H as (w2 & s2 & caps2 & -> & H2 & H).
    exists (w1 ++ w2), s2, caps2. rewrite <- app_assoc.
    repeat split; auto. econstructor; eauto.
  - destruct (run r k s caps) as [res' |] eqn:Hr.
    + inversion H; subst res'; clear H.
      apply IH in Hr. destruct Hr as (w & s' & caps' & -> & Hs & Hk).
      exists w, s', caps'. repeat split; auto. now apply sem_Opt_take.
    + exists [], s, caps. repeat split; auto. apply sem_Opt_skip.
  - apply IH in H. destruct H as (w & s' & caps' & -> & Hs & Hk).
    rewrite firstn_consumed in Hk.
    exists w, s', (bind_group g w caps'). repeat split; auto.
    now constructor.
Qed.

(** Completeness: whenever some word of the language is a prefix of the
    input and the continuation accepts what follows it, the run
    succeeds (possibly with another, higher-priority word). *)
Lemma run_complete r w caps caps' :
  sem r w caps caps' ->
  forall k s', k s' caps' <> None -> run r k (w ++ s') caps <> None.
Proof.
  induction 1 as [cs c caps Hc | g lo hi cs w caps Hw Hin
                 | r1 r2 w1 w2 caps caps1 caps2 _ IH1 _ IH2
                 | r caps | r w caps caps' _ IH | g r w caps caps' _ IH];
    intros k s' Hk; simpl.
  - rewrite Hc. exact Hk.
  - destruct g; [apply rep_max_complete | apply rep_min_complete]; auto.
  - rewrite <- app_assoc. apply IH1. apply IH2. exact Hk.
  - destruct (run r k s' caps); [discriminate | exact Hk].
  - specialize (IH k s' Hk).
    destruct (run r k (w ++ s') caps); [discriminate | contradiction].
  - apply IH. rewrite firstn_consumed. exact Hk.
Qed.

Lemma match_at_sound r adv s n caps :
  match_at r adv s = Some (n, caps) ->
  exists w s', s = w ++ s' /\ n = length w /\ sem r w [] caps /\
               (adv = true -> n <> 0).
Proof.
  unfold match_at. intros H.
  destruct (run r _ s []) as [[s1 caps1] |] eqn:Hr; [| discriminate].
  inversion H; subst n caps; clear H.
  apply run_sound in Hr. destruct Hr as (w & s' & caps' & -> & Hs & Hk).
  destruct (adv && (length s' =? length (w ++ s'))) eqn:Ha;
    [discriminate |].
  inversion Hk; subst s1 caps1; clear Hk.
  exists w, s'. rewrite length_app.
  repeat split; auto; [lia |].
  intros ->. simpl in Ha. apply Nat.eqb_neq in Ha.
  rewrite length_app in Ha. lia.
Qed.

Lemma match_at_complete r w caps s' :
  sem r w [] caps -> match_at r false (w ++ s') <> None.
Proof.
  intros Hs. unfold match_at. simpl.
  assert (Hc : run r (fun s1 caps1 => Some (s1, caps1)) (w ++ s') []
               <> None).
  { apply run_complete with (caps' := caps); [exact Hs | discriminate]. }
  destruct (run r _ (w ++ s') []) as [[s1 caps1] |];
    [discriminate | contradiction].
Qed.

(** ** The scanner *)

Lemma located_here r pos s adv n caps :
  match_at r adv s = Some (n, caps) ->
  located r pos s (mkMatch pos (pos + n) caps).
Proof.
  intros H. apply match_at_sound in H.
  destruct H as (w & s' & -> & -> & Hs & _).
  exists [], w, s'. simpl. repeat split; auto.
Qed.

Lemma located_later r pos c s m :
  located r (S pos) s m -> located r pos (c :: s) m.
Proof.
  intros (p & w & q & -> & Hs & Hst & Hen).
  exists (c :: p), w, q. simpl. repeat split; auto. lia.
Qed.

Lemma located_occurs r pos s m : located r pos s m -> occurs r s.
Proof.
  intros (p & w & q & -> & Hs & _). exists p, w, q, (m_groups m). auto.
Qed.

(** Every reported match is a word of the language at its span. *)
Lemma scan_located r : forall s pos skip m,
  In m (hits (scan r pos s skip)) -> located r pos s m.
Proof.
  induction s as [| c s IH]; intros pos skip m Hin; destruct skip as [| k];
    simpl in Hin.
  - destruct (match_at r false []) as [[n caps] |] eqn:E; simpl in Hin;
      [| contradiction].
    destruct Hin as [<- | []].
    pose proof (@located_here r pos [] false n caps E) as Hl.
    apply match_at_sound in E. destruct E as (w & s' & Hnil & -> & _).
    symmetry in Hnil. apply app_eq_nil in Hnil. destruct Hnil as [-> _].
    simpl in Hl. now rewrite Nat.add_0_r in Hl.
  - contradiction.
  - destruct (match_at r false (c :: s)) as [[[| n] caps] |] eqn:E;
      simpl in Hin.
    + destruct Hin as [<- | Hin].
      * pose proof (@located_here r pos (c :: s) false 0 caps E) as Hl.
        now rewrite Nat.add_0_r in Hl.
      * destruct (match_at r true (c :: s)) as [[[| n'] caps'] |] eqn:E2;
          simpl in Hin.
        -- apply located_later. eapply IH; eauto.
        -- destruct Hin as [<- | Hin].
           ++ eapply located_here; eauto.
           ++ apply located_later. eapply IH; eauto.
        -- apply located_later. eapply IH; eauto.
    + destruct Hin as [<- | Hin].
      * eapply located_here; eauto.
      * apply located_later. eapply IH; eauto.
    + apply located_later. eapply IH; eauto.
  - apply located_later. eapply IH; eauto.
Qed.

(** A pattern that matches somewhere is found. *)
Lemma scan_finds r p w q caps :
  sem r w [] caps ->
  forall pos, hits (scan r pos (p ++ w ++ q) 0) <> [].
Proof.
  intros Hs. induction p as [| c p IH]; intros pos.
  - simpl app. pose proof (@match_at_complete r w caps q Hs) as Hc.
    destruct (w ++ q) as [| c s]; simpl.
    + destruct (match_at r false []) as [[n caps'] |];
        [simpl; discriminate | contradiction].
    + destruct (match_at r false (c :: s)) as [[[| n] caps'] |];
        [simpl; discriminate | simpl; discriminate | contradiction].
  - simpl.
    destruct (match_at r false (c :: p ++ w ++ q)) as [[[| n] caps'] |];
      try (simpl; discriminate).
    simpl. apply IH.
Qed.

Lemma finditer_located r t m :
  In m (finditer r t) -> located r 0 t m.
Proof. apply scan_located. Qed.

Lemma finditer_occurs r t : finditer r t <> [] <-> occurs r t.
Proof.
  split.
  - intros Hne. destruct (finditer r t) as [| m ms] eqn:E; [congruence |].
    apply located_occurs with (pos := 0) (m := m).
    apply finditer_located. rewrite E. now left.
  - intros (p & w & q & caps & -> & Hs). now apply scan_finds with (caps := caps).
Qed.

Lemma search_occurs r : forall t, search r t = true <-> occurs r t.
Proof.
  induction t as [| c t IH]; simpl.
  - destruct (match_at r false []) as [[n caps] |] eqn:E.
    + split; [intros _ | reflexivity].
      eapply located_occurs. eapply located_here with (pos := 0). exact E.
    + split; [discriminate |].
      intros (p & w & q & caps & Ht & Hs). exfalso.
      destruct p; [| discriminate]. simpl in Ht.
      apply (@match_at_complete r w caps q Hs). now rewrite <- Ht.
  - destruct (match_at r false (c :: t)) as [[n caps] |] eqn:E.
    + split; [intros _ | reflexivity].
      eapply located_occurs. eapply located_here with (pos := 0). exact E.
    + rewrite IH. split.
      * intros (p & w & q & caps & -> & Hs). exists (c :: p), w, q, caps. auto.
      * intros (p & w & q & caps & Ht & Hs).
        destruct p as [| c' p].
        -- exfalso. simpl in Ht.
           apply (@match_at_complete r w caps q Hs). now rewrite <- Ht.
        -- inversion Ht; subst. exists p, w, q, caps. auto.
Qed.

Lemma in_order_weaken from from' upto ms :
  from' <= from -> in_order from upto ms -> in_order from' upto ms.
Proof. destruct ms; simpl; [auto |]. intros ? (? & ? & ? & ?). repeat split; auto; lia. Qed.

Lemma match_at_positive r adv s n caps :
  never_empty r -> match_at r adv s = Some (n, caps) ->
  exists k, n = S k /\ k < length s.
Proof.
  intros Hne H. apply match_at_sound in H.
  destruct H as (w & s' & -> & -> & Hs & _).
  apply Hne in Hs. destruct w as [| c w]; [congruence |].
  exists (length w). simpl. rewrite length_app. split; [reflexivity | lia].
Qed.

(** For a pattern without empty words, the matches come left to right,
    each after the end of the one before, inside the text. *)
Lemma scan_in_order r :
  never_empty r ->
  forall s pos skip, skip <= length s ->
    in_order (pos + skip) (pos + length s) (hits (scan r pos s skip)).
Proof.
  intros Hne. induction s as [| c s IH]; intros pos skip Hk;
    destruct skip as [| k]; simpl in *; try lia.
  - destruct (match_at r false []) as [[n caps] |] eqn:E; [| exact I].
    destruct (match_at_positive _ _ Hne E) as (k & _ & Hlt). simpl in Hlt. lia.
  - destruct (match_at r false (c :: s)) as [[n caps] |] eqn:E.
    + destruct (match_at_positive _ _ Hne E) as (k & -> & Hlt).
      simpl in Hlt. simpl. repeat split; try lia.
      replace (pos + S k) with (S pos + k) by lia.
      replace (pos + S (length s)) with (S pos + length s) by lia.
      apply IH. lia.
    + simpl. apply in_order_weaken with (from := S pos + 0); [lia |].
      replace (pos + S (length s)) with (S pos + length s) by lia.
      apply IH. lia.
  - replace (pos + S k) with (S pos + k) by lia.
    replace (pos + S (length s)) with (S pos + length s) by lia.
    apply IH. lia.
Qed.

Lemma finditer_in_order r t :
  never_empty r -> in_order 0 (length t) (finditer r t).
Proof.
  intros Hne. apply (@scan_in_order r Hne t 0 0). lia.
Qed.

Lemma sem_min_len r w caps caps' :
  sem r w caps caps' -> min_len r <= length w.
Proof.
  induction 1 as [| g lo hi cs w caps Hw [Hlo _] | | | |]; simpl;
    try rewrite length_app; lia.
Qed.

Lemma min_len_never_empty r : 0 < min_len r -> never_empty r.
Proof.
  intros Hpos w caps caps' Hs ->. apply sem_min_len in Hs. simpl in Hs. lia.
Qed.

Lemma sem_groupless r w caps caps' :
  sem r w caps caps' -> groupless r = true -> caps' = caps.
Proof.
  induction 1; simpl; intros Hg; auto; try discriminate.
  apply andb_prop in Hg. destruct Hg as [Hg1 Hg2].
  rewrite IHsem2, IHsem1; auto.
Qed.

End ReFacts.

(* ------------------------------------------------------------------ *)
(** * Name normalization *)

Module NormFacts.

Import Re Builtins App Spec.

(** ** [re.sub(r"\s+", " ", s)] is the one-pass [collapse] *)

Lemma lstrip_length s : length s = run_length s + length (lstrip s).
Proof.
  induction s as [| c s IH]; simpl; [reflexivity |].
  destruct (Unicode.is_space c); simpl; lia.
Qed.

Lemma rep_max_blanks s :
  rep_max [CatSpace] 0 None (fun s' => Some (s', [])) s = Some (lstrip s, []).
Proof.
  induction s as [| c s IH]; [reflexivity |].
  cbn [rep_max lstrip in_cset existsb in_citem can_more dec pred].
  rewrite orb_false_r, andb_true_r.
  destruct (Unicode.is_space c); [rewrite IH |]; reflexivity.
Qed.

Lemma match_at_blanks s :
  match_at blanks false s =
  match s with
  | c :: s' =>
      if Unicode.is_space c then Some (S (run_length s'), []) else None
  | [] => None
  end.
Proof.
  unfold match_at, blanks. cbn [run andb].
  destruct s as [| c s]; [reflexivity |].
  cbn [rep_max in_cset existsb in_citem can_more dec pred].
  rewrite orb_false_r, andb_true_r.
  destruct (Unicode.is_space c); [| reflexivity].
  rewrite rep_max_blanks. f_equal. f_equal.
  cbn [length]. rewrite (lstrip_length s). lia.
Qed.

Lemma scan_blanks s : forall pos,
  splice (of_string " ") (scan blanks pos s 0) = collapse false s /\
  splice (of_string " ") (scan blanks pos s (run_length s)) = collapse true s.
Proof.
  induction s as [| c s IH]; intros pos.
  - cbn [scan run_length]. rewrite match_at_blanks. split; reflexivity.
  - destruct (IH (S pos)) as [IH0 IH1].
    assert (H0 : splice (of_string " ") (scan blanks pos (c :: s) 0)
                 = collapse false (c :: s)).
    { cbn [scan]. rewrite match_at_blanks. cbn [collapse].
      destruct (Unicode.is_space c); cbn [splice].
      - rewrite IH1. reflexivity.
      - rewrite IH0. reflexivity. }
    split; [exact H0 |].
    cbn [run_length]. destruct (Unicode.is_space c) eqn:Hc.
    + cbn [scan collapse]. rewrite Hc. apply IH1.
    + rewrite H0. cbn [collapse]. rewrite Hc. reflexivity.
Qed.

Lemma sub_blanks s : sub blanks (of_string " ") s = collapse false s.
Proof. apply scan_blanks. Qed.

(** ** The collapsed text is single-spaced *)

Lemma collapse_no_leading_blank s :
  starts_with_space (collapse true s) = false.
Proof.
  induction s as [| c s IH]; simpl; [reflexivity |].
  destruct (Unicode.is_space c) eqn:Hc; simpl; auto.
Qed.

Lemma collapse_single_spaced s : forall b,
  single_spaced (collapse b s) = true.
Proof.
  induction s as [| c s IH]; intros b; simpl; [reflexivity |].
  destruct (Unicode.is_space c) eqn:Hc.
  - destruct b; [apply IH |].
    cbn [single_spaced]. rewrite collapse_no_leading_blank, IH.
    reflexivity.
  - cbn [single_spaced]. rewrite Hc, IH. reflexivity.
Qed.

Lemma collapse_fixed s :
  single_spaced s = true ->
  collapse false s = s /\
  (starts_with_space s = false -> collapse true s = s).
Proof.
  induction s as [| c s IH]; simpl; [auto |].
  intros H. apply andb_prop in H. destruct H as [Hc Hs].
  destruct (IH Hs) as [IH0 IH1].
  destruct (Unicode.is_space c) eqn:Hsp.
  - apply andb_prop in Hc. destruct Hc as [Hc Hn].
    apply N.eqb_eq in Hc. apply negb_true_iff in Hn.
    split; [| discriminate].
    rewrite IH1 by exact Hn. now subst c.
  - rewrite IH0. auto.
Qed.

Lemma single_spaced_suffix a : forall b,
  single_spaced (a ++ b) = true -> single_spaced b = true.
Proof.
  induction a as [| c a IH]; simpl; intros b H; [exact H |].
  apply andb_prop in H. apply IH, H.
Qed.

Lemma single_spaced_prefix a : forall b,
  single_spaced (a ++ b) = true -> single_spaced a = true.
Proof.
  induction a as [| c a IH]; simpl; intros b H; [reflexivity |].
  apply andb_prop in H. destruct H as [Hc Hs].
  rewrite (IH _ Hs), andb_true_r.
  destruct (Unicode.is_space c); [| reflexivity].
  destruct a; [| exact Hc].
  apply andb_prop in Hc. destruct Hc as [Hc _]. simpl. now rewrite Hc.
Qed.

(** ** [strip] *)

Lemma lstrip_split s : exists a, s = a ++ lstrip s.
Proof.
  induction s as [| c s [a IH]]; simpl; [now exists [] |].
  destruct (Unicode.is_space c); [| now exists []].
  exists (c :: a). simpl. now rewrite <- IH.
Qed.

Lemma rstrip_split s : exists a, s = rstrip s ++ a.
Proof.
  unfold rstrip. destruct (lstrip_split (rev s)) as [a H].
  exists (rev a). rewrite <- rev_app_distr, <- H. symmetry. apply rev_involutive.
Qed.

Lemma lstrip_no_leading_blank s : starts_with_space (lstrip s) = false.
Proof.
  induction s as [| c s IH]; simpl; [reflexivity |].
  destruct (Unicode.is_space c) eqn:Hc; simpl; auto.
Qed.

Lemma lstrip_fixed s : starts_with_space s = false -> lstrip s = s.
Proof. destruct s as [| c s]; simpl; [auto |]. now intros ->. Qed.

Lemma lstrip_snoc x c :
  Unicode.is_space c = false -> lstrip (x ++ [c]) = lstrip x ++ [c].
Proof.
  intros Hc. induction x as [| d x IH]; simpl.
  - now rewrite Hc.
  - destruct (Unicode.is_space d); auto.
Qed.

Lemma rstrip_no_leading_blank s :
  starts_with_space s = false -> starts_with_space (rstrip s) = false.
Proof.
  destruct s as [| c s]; simpl; [auto |]. intros Hc.
  unfold rstrip. simpl rev. rewrite lstrip_snoc by exact Hc.
  rewrite rev_app_distr. simpl. exact Hc.
Qed.

Lemma rstrip_idempotent s : rstrip (rstrip s) = rstrip s.
Proof.
  unfold rstrip. rewrite rev_involutive.
  rewrite (lstrip_fixed (lstrip (rev s)) (lstrip_no_leading_blank _)).
  reflexivity.
Qed.

Lemma strip_trimmed s : lstrip (strip s) = strip s /\ rstrip (strip s) = strip s.
Proof.
  unfold strip. split.
  - apply lstrip_fixed, rstrip_no_leading_blank, lstrip_no_leading_blank.
  - apply rstrip_idempotent.
Qed.

Lemma strip_single_spaced s :
  single_spaced s = true -> single_spaced (strip s) = true.
Proof.
  intros H. unfold strip.
  destruct (lstrip_split s) as [a Ha]. rewrite Ha in H.
  apply single_spaced_suffix in H.
  destruct (rstrip_split (lstrip s)) as [b Hb]. rewrite Hb in H.
  now apply single_spaced_prefix in H.
Qed.

(** ** The normal form *)

Lemma normalize_name_normalized raw : normalized (normalize_name raw).
Proof.
  unfold normalized, normalize_name. rewrite sub_blanks.
  split; [| apply strip_trimmed].
  apply strip_single_spaced, collapse_single_spaced.
Qed.

Lemma normalized_fixed s : normalized s -> normalize_name s = s.
Proof.
  intros (Hs & Hl & Hr). unfold normalize_name. rewrite sub_blanks.
  destruct (collapse_fixed _ Hs) as [-> _].
  unfold strip. now rewrite Hl, Hr.
Qed.

End NormFacts.

(* ------------------------------------------------------------------ *)
(** * The layouts and the records built from their matches *)

Module AppFacts.

Import Re Builtins App Spec ReFacts NormFacts.

Ltac inv H := inversion H; subst; clear H.

(** Invert the semantics along sequences, groups and single items. *)
Ltac sem_inv :=
  repeat match goal with
  | H : sem (Seq _ _) _ _ _ |- _ => inv H
  | H : sem (Group _ _) _ _ _ |- _ => inv H
  | H : sem (One _) _ _ _ |- _ => inv H
  | H : sem (Repeat _ _ _ _) _ _ _ |- _ => inv H
  end.

(** ** What the three patterns bind *)

Lemma digit_set_run w lo hi :
  forallb (in_cset [CatDigit]) w = true -> within (length w) (S lo) hi ->
  digit_run w.
Proof.
  intros Hw [Hlo _]. split.
  - intros ->. simpl in Hlo. lia.
  - clear Hlo. induction w as [| c w IH]; [reflexivity |].
    simpl in *. rewrite orb_false_r in Hw.
    apply andb_prop in Hw. destruct Hw as [-> Hw]. now apply IH.
Qed.

Lemma sem_number x caps caps' :
  sem number x caps caps' -> caps' = caps /\ numeral x.
Proof.
  unfold number, digits. intros H. sem_inv.
  match goal with H : sem (Opt _) _ _ _ |- _ => inv H end.
  - split; [reflexivity |]. rewrite app_nil_r.
    match goal with |- numeral ?a =>
      exists a; split; [eapply digit_set_run; eassumption | now left]
    end.
  - sem_inv. split; [reflexivity |].
    match goal with H : in_cset _ _ = true |- _ =>
      simpl in H; rewrite orb_false_r in H; apply N.eqb_eq in H; subst
    end.
    match goal with |- numeral (?a ++ [_] ++ ?b) =>
      exists a; split; [eapply digit_set_run; eassumption |];
      right; exists b; split; [eapply digit_set_run; eassumption |]
    end.
    reflexivity.
Qed.

Lemma sem_triple w caps caps' :
  sem triple w caps caps' ->
  exists q r a,
    caps' = ("amount"%string, a) :: ("rate"%string, r) ::
            ("qty"%string, q) :: caps /\
    numeral q /\ numeral r /\ numeral a.
Proof.
  unfold triple. intros H. sem_inv.
  repeat match goal with
  | H : sem number _ _ _ |- _ => apply sem_number in H; destruct H as [? ?]
  | H : sem blanks _ _ _ |- _ =>
      apply sem_groupless in H; [| reflexivity]
  end.
  subst. unfold bind_group. do 3 eexists.
  repeat split; try reflexivity; assumption.
Qed.

Ltac layout :=
  intros H; sem_inv;
  repeat match goal with
  | H : sem triple _ _ _ |- _ =>
      apply sem_triple in H; destruct H as (? & ? & ? & ? & ? & ? & ?)
  | H : sem _ _ _ _ |- _ =>
      apply sem_groupless in H; [| reflexivity]
  end;
  subst; unfold bind_group; do 4 eexists;
  repeat split; try reflexivity; assumption.

Lemma sem_pharmacy w caps caps' :
  sem pharmacy w caps caps' ->
  exists n q r a,
    caps' = ("amount"%string, a) :: ("rate"%string, r) ::
            ("qty"%string, q) :: ("name"%string, n) :: caps /\
    numeral q /\ numeral r /\ numeral a.
Proof. unfold pharmacy. layout. Qed.

Lemma sem_hospital w caps caps' :
  sem hospital w caps caps' ->
  exists n q r a,
    caps' = ("amount"%string, a) :: ("rate"%string, r) ::
            ("qty"%string, q) :: ("name"%string, n) :: caps /\
    numeral q /\ numeral r /\ numeral a.
Proof. unfold hospital. layout. Qed.

Lemma sem_investigation w caps caps' :
  sem investigation w caps caps' ->
  exists n q r a,
    caps' = ("amount"%string, a) :: ("rate"%string, r) ::
            ("qty"%string, q) :: ("name"%string, n) :: caps /\
    numeral q /\ numeral r /\ numeral a.
Proof. unfold investigation. layout. Qed.

Lemma layout_bindings p w caps :
  In p patterns -> sem p w [] caps -> item_bindings caps.
Proof.
  intros [<- | [<- | [<- | []]]] H;
    [apply sem_pharmacy in H | apply sem_hospital in H
     | apply sem_investigation in H];
    destruct H as (n & q & r & a & -> & Hq & Hr & Ha);
    exists n, q, r, a; auto.
Qed.

Lemma layout_never_empty p : In p patterns -> never_empty p.
Proof.
  intros [<- | [<- | [<- | []]]]; apply min_len_never_empty; simpl; lia.
Qed.

(** ** [float] on what the numeric groups capture *)

Lemma span_digits_app ip rest :
  forallb Unicode.is_decimal ip = true ->
  match rest with [] => True | c :: _ => Unicode.is_decimal c = false end ->
  span_digits (ip ++ rest) = (ip, rest).
Proof.
  intros Hip Hrest. induction ip as [| d ip IH]; cbn [app span_digits].
  - destruct rest as [| c rest]; cbn [span_digits];
      [reflexivity | now rewrite Hrest].
  - cbn [forallb] in Hip. apply andb_prop in Hip. destruct Hip as [-> Hip].
    now rewrite (IH Hip).
Qed.

Lemma digits_value_total d :
  forallb Unicode.is_decimal d = true ->
  forall acc, exists n, digits_value acc d = Some n.
Proof.
  induction d as [| c d IH]; simpl; intros Hd acc; [now exists acc |].
  apply andb_prop in Hd. destruct Hd as [Hc Hd].
  unfold Unicode.is_decimal in Hc.
  destruct (Unicode.to_decimal c); [apply (IH Hd) | discriminate].
Qed.

Lemma Qred_nonneg n d : (0 <= Qred (Z.of_N n # d))%Q.
Proof.
  rewrite Qred_correct. unfold Qle. cbn [Qnum Qden]. lia.
Qed.

Lemma float_numeral x :
  numeral x -> exists v, float x = Ok v /\ (0 <= v)%Q.
Proof.
  intros (ip & [Hne Hip] & [-> | (fp & [Hnf Hfp] & ->)]); unfold float.
  - pose proof (@span_digits_app ip [] Hip I) as E.
    rewrite app_nil_r in E. rewrite E.
    destruct ip as [| c ip]; [congruence |].
    destruct (digits_value_total _ Hip 0%N) as [n ->].
    eexists. split; [reflexivity | apply Qred_nonneg].
  - rewrite span_digits_app by (auto; reflexivity).
    replace (ch "." =? ch ".")%N with true by reflexivity.
    assert (Hall : forallb Unicode.is_decimal (ip ++ fp) = true)
      by (rewrite forallb_app, Hip, Hfp; reflexivity).
    destruct ip as [| c ip]; [congruence |]. cbn [app] in *.
    destruct (digits_value_total _ Hall 0%N) as [n ->].
    eexists. split; [reflexivity | apply Qred_nonneg].
Qed.

(** ** Every match of a layout yields a well-formed record *)

Lemma item_of_bindings m :
  item_bindings (m_groups m) ->
  exists it, item_of_match m = Ok it /\ well_formed it.
Proof.
  intros (n & q & r & a & Hcaps & Hq & Hr & Ha).
  destruct (float_numeral Hq) as (vq & Eq & Pq).
  destruct (float_numeral Hr) as (vr & Er & Pr).
  destruct (float_numeral Ha) as (va & Ea & Pa).
  unfold item_of_match, group_text. rewrite Hcaps. simpl.
  rewrite Eq. simpl. rewrite Er. simpl. rewrite Ea. simpl.
  eexists. split; [reflexivity |].
  repeat split; simpl; auto; apply normalize_name_normalized.
Qed.

Lemma item_of_finditer p t m :
  In p patterns -> In m (finditer p t) ->
  exists it, produces m it /\ well_formed it.
Proof.
  intros Hp Hm. apply item_of_bindings.
  apply finditer_located in Hm. destruct Hm as (a & w & b & _ & Hs & _).
  eapply layout_bindings; eauto.
Qed.

(** ** The two loops *)

Lemma for_matches_appends ms :
  Forall (fun m => exists it, produces m it) ms ->
  forall acc, exists its,
    for_matches ms acc = Ok (acc ++ its) /\ Forall2 produces ms its.
Proof.
  induction 1 as [| m ms [it Hit] _ IH]; intros acc; simpl.
  - exists []. rewrite app_nil_r. auto.
  - unfold produces in Hit. rewrite Hit. simpl.
    destruct (IH (acc ++ [it])) as (its & -> & Hall).
    exists (it :: its). rewrite <- app_assoc. simpl. auto.
Qed.

Lemma finditer_all_produce p t :
  In p patterns -> Forall (fun m => exists it, produces m it) (finditer p t).
Proof.
  intros Hp. apply Forall_forall. intros m Hm.
  destruct (item_of_finditer _ _ Hp Hm) as (it & Hit & _). eauto.
Qed.

(** The output is, pattern by pattern and match by match, the records of
    the matches; nothing is raised. *)
Lemma extract_decomposition t :
  exists ph ho iv,
    extract_bill_items_regex t = Ok (ph ++ ho ++ iv) /\
    Forall2 produces (finditer pharmacy t) ph /\
    Forall2 produces (finditer hospital t) ho /\
    Forall2 produces (finditer investigation t) iv.
Proof.
  unfold extract_bill_items_regex, patterns. cbn [for_patterns].
  destruct (@for_matches_appends (finditer pharmacy t)
              (finditer_all_produce t (or_introl eq_refl)) [])
    as (ph & -> & Hph).
  cbn [rbind app].
  destruct (@for_matches_appends (finditer hospital t)
              (finditer_all_produce t (or_intror (or_introl eq_refl))) ph)
    as (ho & -> & Hho).
  cbn [rbind].
  destruct (@for_matches_appends (finditer investigation t)
              (finditer_all_produce t
                 (or_intror (or_intror (or_introl eq_refl)))) (ph ++ ho))
    as (iv & -> & Hiv).
  cbn [rbind].
  exists ph, ho, iv. rewrite <- app_assoc. auto.
Qed.

Lemma Forall2_In_r {A B : Type} (R : A -> B -> Prop) l l' y :
  Forall2 R l l' -> In y l' -> exists x, In x l /\ R x y.
Proof.
  induction 1 as [| a b l l' Hab _ IH]; simpl; [contradiction |].
  intros [<- | Hy]; [eauto |].
  destruct (IH Hy) as (x & Hx & Hr). eauto.
Qed.

Lemma Forall2_nth_error {A B : Type} (R : A -> B -> Prop) l l' x :
  Forall2 R l l' -> In x l ->
  exists i y, nth_error l' i = Some y /\ R x y.
Proof.
  induction 1 as [| a b l l' Hab _ IH]; simpl; [contradiction |].
  intros [<- | Hx].
  - exists 0, b. auto.
  - destruct (IH Hx) as (i & y & Hi & Hr). exists (S i), y. auto.
Qed.

Lemma Forall2_pair {A B : Type} (R : A -> B -> Prop) a b l :
  Forall2 R [a; b] l -> exists x y, l = [x; y] /\ R a x /\ R b y.
Proof.
  intros H. inversion H as [| ? x ? l1 Hx H1]; subst.
  inversion H1 as [| ? y ? l2 Hy H2]; subst. inversion H2; subst.
  exists x, y. auto.
Qed.

Lemma extract_well_formed t :
  exists items,
    extract_bill_items_regex t = Ok items /\
    Forall well_formed items.
Proof.
  destruct (extract_decomposition t) as (ph & ho & iv & -> & Hph & Hho & Hiv).
  eexists. split; [reflexivity |].
  assert (Hwf : forall p l, In p patterns ->
            Forall2 produces (finditer p t) l -> Forall well_formed l).
  { intros p l Hp Hl. apply Forall_forall. intros it Hit.
    eapply Forall2_In_r in Hit; [| exact Hl].
    destruct Hit as (m & Hm & Hmit).
    destruct (item_of_finditer _ _ Hp Hm) as (it' & Hit' & Hwf).
    unfold produces in *. congruence. }
  repeat rewrite Forall_app. repeat split.
  - apply (Hwf pharmacy); simpl; auto.
  - apply (Hwf hospital); simpl; auto.
  - apply (Hwf investigation); simpl; auto.
Qed.

(** ** The hospital layout covers the pharmacy layout *)

Lemma hospital_set_covers c :
  in_cset pharmacy_set c = true -> in_cset hospital_set c = true.
Proof.
  unfold pharmacy_set, hospital_set, in_cset.
  cbn [existsb]. repeat rewrite orb_true_iff. intuition.
Qed.

Lemma forallb_covers w :
  forallb (in_cset pharmacy_set) w = true ->
  forallb (in_cset hospital_set) w = true.
Proof.
  induction w as [| c w IH]; cbn [forallb]; [auto |].
  intros H. apply andb_prop in H. destruct H as [Hc Hw].
  rewrite (hospital_set_covers _ Hc), (IH Hw). reflexivity.
Qed.

(** A pharmacy match, once its optional serial number is cut off, is a
    hospital match. *)
Lemma pharmacy_then_hospital w caps :
  sem pharmacy w [] caps ->
  exists serial w' caps', w = serial ++ w' /\ sem hospital w' [] caps'.
Proof.
  unfold pharmacy, hospital. intros H. inv H.
  match goal with H : sem (Opt _) _ _ _ |- _ =>
    apply sem_groupless in H; [| reflexivity]; subst
  end.
  match goal with H : sem (Seq _ _) ?w _ _ |- context [?s ++ ?w] =>
    exists s, w; inv H
  end.
  match goal with H : sem (Group _ _) _ _ _ |- _ => inv H end.
  match goal with H : sem (Repeat _ _ _ _) _ _ _ |- _ => inv H end.
  eexists. split; [reflexivity |].
  econstructor; [| eassumption].
  constructor. constructor; [now apply forallb_covers | assumption].
Qed.

Lemma pharmacy_occurs_hospital t : occurs pharmacy t -> occurs hospital t.
Proof.
  intros (p & w & q & caps & -> & Hs).
  destruct (pharmacy_then_hospital Hs) as (serial & w' & caps' & -> & Hh).
  exists (p ++ serial), w', q, caps'. split; [| exact Hh].
  now rewrite <- !app_assoc.
Qed.

End AppFacts.

(* ------------------------------------------------------------------ *)
(** * The request handler *)

Module HandlerFacts.

Import Re Builtins App Spec ReFacts NormFacts AppFacts.

Lemma rsplit_last_none sep s :
  rsplit_last sep s = None <-> contains sep s = false.
Proof.
  unfold contains. induction s as [| c s IH]; simpl; [tauto |].
  destruct (rsplit_last sep s) as [[a b] |].
  - split; [discriminate |]. intros H. apply orb_false_elim in H.
    destruct H as [_ H]. apply IH in H. discriminate.
  - destruct (c =? sep)%N; simpl; [split; discriminate |].
    split; intros _; [now apply IH | reflexivity].
Qed.

(** The suffix [rsplit] returns is what follows the last separator. *)
Lemma rsplit_last_some sep s a b :
  rsplit_last sep s = Some (a, b) ->
  s = a ++ sep :: b /\ contains sep b = false.
Proof.
  revert a b. induction s as [| c s IH]; simpl; intros a b H; [discriminate |].
  destruct (rsplit_last sep s) as [[a' b'] |] eqn:E.
  - inversion H; subst. destruct (IH _ _ eq_refl) as [-> Hb]. auto.
  - destruct (c =? sep)%N eqn:Hc; [| discriminate].
    inversion H; subst. apply N.eqb_eq in Hc. subst c.
    split; [reflexivity |]. now apply rsplit_last_none.
Qed.

Lemma rsplit_last_app sep a b :
  contains sep b = false -> rsplit_last sep (a ++ sep :: b) = Some (a, b).
Proof.
  intros Hb. induction a as [| c a IH]; simpl.
  - apply rsplit_last_none in Hb. rewrite Hb, N.eqb_refl. reflexivity.
  - now rewrite IH.
Qed.

(** [allowed_file] never raises, and decides on the final dot-suffix. *)
Lemma allowed_file_spec f :
  allowed_file f =
  Ok (match rsplit_last (ch ".") f with
      | Some (_, suffix) => member (lower suffix) ALLOWED_EXTENSIONS
      | None => false
      end).
Proof.
  unfold allowed_file, rsplit1.
  destruct (rsplit_last (ch ".") f) as [[a b] |] eqn:E.
  - destruct (contains (ch ".") f) eqn:Hc; [reflexivity |].
    apply rsplit_last_none in Hc. congruence.
  - apply rsplit_last_none in E. now rewrite E.
Qed.

Lemma allowed_file_suffix prefix suffix :
  contains (ch ".") suffix = false ->
  allowed_file (prefix ++ ch "." :: suffix)
  = Ok (member (lower suffix) ALLOWED_EXTENSIONS).
Proof.
  intros H. rewrite allowed_file_spec, rsplit_last_app by exact H.
  reflexivity.
Qed.

Lemma allowed_file_no_dot f :
  contains (ch ".") f = false -> allowed_file f = Ok false.
Proof.
  intros H. rewrite allowed_file_spec.
  apply rsplit_last_none in H. now rewrite H.
Qed.

(** A rejected upload leaves no trace and surfaces as status 500. *)
Lemma rejected_upload h file log :
  allowed_file (filename file) = Ok false ->
  ocr_webhook h file log =
  (Raise (HTTPException 500 (StrOf (HTTPException 400 UnsupportedFileType))),
   log).
Proof.
  intros H. unfold ocr_webhook, try_except, bind, lift. rewrite H. reflexivity.
Qed.

Lemma for_pages_spec extracted : forall idx pages total,
  exists entries,
    for_pages extracted idx pages total
    = Ok (pages ++ entries, total + count_items entries) /\
    map page_no entries = map str_of_nat (seq (idx + 1) (length extracted)) /\
    Forall (fun p => page_type p = "Bill Detail"%string) entries /\
    Forall2 (fun kv p => extract_bill_items_regex (snd kv)
                         = Ok (bill_items p)) extracted entries.
Proof.
  induction extracted as [| [k t] rest IH]; intros idx pages total.
  - exists []. simpl. rewrite app_nil_r, Nat.add_0_r. auto.
  - cbn [for_pages].
    destruct (extract_well_formed t) as (items & E & _). rewrite E.
    cbn [rbind].
    destruct (IH (S idx)
                 (pages ++ [mkPage (str_of_nat (idx + 1)) "Bill Detail" items])
                 (total + length items))
      as (entries & -> & Hno & Hty & Hall).
    exists (mkPage (str_of_nat (idx + 1)) "Bill Detail" items :: entries).
    repeat split.
    + f_equal. f_equal; [now rewrite <- app_assoc |].
      unfold count_items. simpl. lia.
    + simpl. f_equal. exact Hno.
    + constructor; auto.
    + constructor; auto.
Qed.

(** The loop does not look at the keys. *)
Lemma for_pages_keys e1 : forall e2 idx pages total,
  map snd e1 = map snd e2 ->
  for_pages e1 idx pages total = for_pages e2 idx pages total.
Proof.
  induction e1 as [| [k1 t1] e1 IH]; intros [| [k2 t2] e2] idx pages total H;
    simpl in H; try discriminate; [reflexivity |].
  inversion H; subst. cbn [for_pages].
  destruct (extract_bill_items_regex t2); [| reflexivity].
  cbn [rbind]. now apply IH.
Qed.

(** A successful request went through the OCR stage and the
    structuring loop. *)
Lemma ocr_webhook_success h file log resp log' :
  ocr_webhook h file log = (Ok resp, log') ->
  exists extracted,
    ocr_output h file extracted /\
    for_pages extracted 0 [] 0
    = Ok (pagewise_line_items resp, total_item_count resp).
Proof.
  unfold ocr_webhook, try_except. intros H.
  match type of H with
  | match ?body log with _ => _ end = _ =>
      destruct (body log) as [[r | e] l] eqn:Hb; [| discriminate]
  end.
  inversion H; subst r l; clear H.
  unfold bind, lift, raise, emit, ret in Hb.
  destruct (allowed_file (filename file)) as [[|] | e]; simpl in Hb;
    try discriminate.
  destruct (write_file h _ _) as [[] | e]; [| discriminate].
  destruct (index _ 1) as [suffix | e]; [| discriminate].
  destruct (text_eqb (lower suffix) _).
  - unfold simple_pdf_ocr, bind, lift, emit, ret in Hb.
    destruct (recognize_pdf h _) as [pages | e] eqn:Ep; [| discriminate].
    exists (number_pages pages 0). split; [left; eauto |].
    destruct (path_exists h _);
      destruct (for_pages _ 0 [] 0) as [[ps n] | e]; try discriminate;
      inversion Hb; reflexivity.
  - destruct (recognize_image h _) as [t | e] eqn:Ei; [| discriminate].
    exists [(KStr "page_1", t)]. split; [right; eauto |].
    destruct (path_exists h _);
      destruct (for_pages _ 0 [] 0) as [[ps n] | e]; try discriminate;
      inversion Hb; reflexivity.
Qed.

End HandlerFacts.

(* ------------------------------------------------------------------ *)
(** * The properties of the specification *)

Import Re Builtins App Spec ReFacts NormFacts AppFacts HandlerFacts.

(** C1: for every text the three patterns are applied, each on its own,
    to the whole text; the output is the records of the pharmacy matches,
    then those of the hospital matches, then those of the investigation
    matches; inside a pattern the matches lie in the text at their spans
    and come left to right without overlap; and nothing is merged across
    patterns: a pharmacy match and a hospital match, whatever their
    spans, each have their own entry, the pharmacy one first. *)
Theorem C1_patterns_concatenated_in_order (t : text) :
  exists ph ho iv,
    extract_bill_items_regex t = Ok (ph ++ ho ++ iv) /\
    Forall2 produces (finditer pharmacy t) ph /\
    Forall2 produces (finditer hospital t) ho /\
    Forall2 produces (finditer investigation t) iv /\
    (forall p, In p patterns ->
       in_order 0 (length t) (finditer p t) /\
       Forall (located p 0 t) (finditer p t)) /\
    (forall m1 m2,
       In m1 (finditer pharmacy t) -> In m2 (finditer hospital t) ->
       exists i j it1 it2,
         i < j /\
         nth_error (ph ++ ho ++ iv) i = Some it1 /\ produces m1 it1 /\
         nth_error (ph ++ ho ++ iv) j = Some it2 /\ produces m2 it2).
Proof.
  destruct (extract_decomposition t) as (ph & ho & iv & E & Hph & Hho & Hiv).
  exists ph, ho, iv. repeat split; auto.
  - apply finditer_in_order. now apply layout_never_empty.
  - apply Forall_forall. intros m Hm. now apply finditer_located.
  - intros m1 m2 H1 H2.
    destruct (Forall2_nth_error m1 Hph H1) as (i & it1 & Hi & Hp1).
    destruct (Forall2_nth_error m2 Hho H2) as (j & it2 & Hj & Hp2).
    assert (Hlt : i < length ph) by (apply nth_error_Some; congruence).
    assert (Hlj : j < length ho) by (apply nth_error_Some; congruence).
    exists i, (length ph + j), it1, it2. repeat split; auto.
    + lia.
    + rewrite nth_error_app1 by exact Hlt. exact Hi.
    + rewrite nth_error_app2 by lia.
      replace (length ph + j - length ph) with j by lia.
      rewrite nth_error_app1 by exact Hlj. exact Hj.
Qed.

(** C2, the name may be empty: on the text of two blanks followed by
    [1 2 3] the pharmacy and the hospital pattern both capture a single
    blank as the name, and the record's name is the empty string. *)
Lemma C2_name_can_be_empty :
  exists items it,
    extract_bill_items_regex (of_string "  1 2 3") = Ok items /\
    In it items /\ item_name it = [].
Proof.
  eexists. eexists. split; [vm_compute; reflexivity |].
  split; [left; reflexivity | reflexivity].
Qed.

(** C2, as the code has it: for every text the extractor raises nothing
    (no numeric parse fails) and every record it returns has a
    non-negative quantity, rate and amount and a whitespace-normalized
    name: single blanks only, none at either end.  The name may be
    empty. *)
Theorem C2_records_well_formed (t : text) :
  exists items,
    extract_bill_items_regex t = Ok items /\
    forall it, In it items ->
      (0 <= item_quantity it)%Q /\ (0 <= item_rate it)%Q /\
      (0 <= item_amount it)%Q /\
      single_spaced (item_name it) = true /\
      lstrip (item_name it) = item_name it /\
      rstrip (item_name it) = item_name it /\
      normalize_name (item_name it) = item_name it.
Proof.
  destruct (extract_well_formed t) as (items & E & Hall).
  exists items. split; [exact E |].
  intros it Hit. rewrite Forall_forall in Hall.
  destruct (Hall it Hit) as (Hq & Hr & Ha & Hn).
  pose proof (normalized_fixed Hn) as Hfix.
  destruct Hn as (Hs & Hl & Hrs). auto 10.
Qed.

(** C3, at the failing input: the upload [report.docx] is turned away
    before anything is written or recognised (the event log is
    untouched), but the status 400 raised for it is caught by the
    handler's own [except Exception] and leaves as status 500.  The same
    happens to every upload [allowed_file] refuses; and [allowed_file]
    itself decides as the claim says: on the lower-cased text after the
    last dot, and against every name without a dot. *)
Theorem C3_rejection_leaves_as_500 (h : Host) (b : bytes) (log : list event) :
  ocr_webhook h (mkUpload (of_string "report.docx") b) log =
  (Raise (HTTPException 500 (StrOf (HTTPException 400 UnsupportedFileType))),
   log) /\
  (forall file,
     allowed_file (filename file) = Ok false ->
     ocr_webhook h file log =
     (Raise (HTTPException 500
               (StrOf (HTTPException 400 UnsupportedFileType))), log)) /\
  (forall prefix suffix,
     contains (ch ".") suffix = false ->
     allowed_file (prefix ++ ch "." :: suffix)
     = Ok (member (lower suffix) ALLOWED_EXTENSIONS)) /\
  (forall f, contains (ch ".") f = false -> allowed_file f = Ok false).
Proof.
  split; [apply rejected_upload; reflexivity |].
  split; [intros file; apply rejected_upload |].
  split; [apply allowed_file_suffix | apply allowed_file_no_dot].
Qed.

(** C4: on the line [Paracetamol 500mg 2 10.50 21.00] the pharmacy
    pattern has one match, the whole line, whose lazy name group stops
    before the three numbers; the record is name [Paracetamol 500mg],
    quantity 2, rate 10.5, amount 21. *)
Theorem C4_pharmacy_line :
  finditer pharmacy (of_string "Paracetamol 500mg 2 10.50 21.00") =
  [mkMatch 0 31 [("amount"%string, of_string "21.00");
                 ("rate"%string, of_string "10.50");
                 ("qty"%string, of_string "2");
                 ("name"%string, of_string "Paracetamol 500mg")]] /\
  for_matches
    (finditer pharmacy (of_string "Paracetamol 500mg 2 10.50 21.00")) [] =
  Ok [mkItem (of_string "Paracetamol 500mg") (2 # 1) (21 # 2) (21 # 1)].
Proof. split; vm_compute; reflexivity. Qed.

(** C5: on the line [CBC Test 12/05/2023 1 300 300] the investigation
    pattern has one match, the whole line (29 characters, the date
    included), and the record is name [CBC Test], quantity 1, rate 300,
    amount 300: the date is in no group and in no field. *)
Theorem C5_investigation_line :
  finditer investigation (of_string "CBC Test 12/05/2023 1 300 300") =
  [mkMatch 0 29 [("amount"%string, of_string "300");
                 ("rate"%string, of_string "300");
                 ("qty"%string, of_string "1");
                 ("name"%string, of_string "CBC Test")]] /\
  for_matches
    (finditer investigation (of_string "CBC Test 12/05/2023 1 300 300")) [] =
  Ok [mkItem (of_string "CBC Test") (1 # 1) (300 # 1) (300 # 1)].
Proof. split; vm_compute; reflexivity. Qed.

(** C6: when a request succeeds, the page entries are numbered ["1"],
    ["2"], ... in the order of the OCR dictionary, whatever its keys
    (relabelling the keys changes nothing); every entry has the type
    ["Bill Detail"] and carries what the extractor returns for its
    page; the total is the sum of the lengths of the entries' item
    lists.  In particular, for a dictionary of two pages whose first
    yields two items and whose second yields none, the total is 2 and
    there are exactly two entries, the second with no items. *)
Theorem C6_pages_renumbered_and_counted
        (h : Host) (file : UploadFile) (log log' : list event)
        (resp : Response) :
  ocr_webhook h file log = (Ok resp, log') ->
  exists extracted,
    ocr_output h file extracted /\
    map page_no (pagewise_line_items resp)
    = map str_of_nat (seq 1 (length extracted)) /\
    Forall (fun p => page_type p = "Bill Detail"%string)
           (pagewise_line_items resp) /\
    Forall2 (fun kv p => extract_bill_items_regex (snd kv)
                         = Ok (bill_items p))
            extracted (pagewise_line_items resp) /\
    total_item_count resp = count_items (pagewise_line_items resp) /\
    (forall relabelled,
       map snd relabelled = map snd extracted ->
       for_pages relabelled 0 [] 0
       = Ok (pagewise_line_items resp, total_item_count resp)) /\
    (forall k1 t1 k2 t2 items1,
       extracted = [(k1, t1); (k2, t2)] ->
       extract_bill_items_regex t1 = Ok items1 -> length items1 = 2 ->
       extract_bill_items_regex t2 = Ok [] ->
       total_item_count resp = 2 /\
       exists p1 p2,
         pagewise_line_items resp = [p1; p2] /\
         page_no p1 = "1"%string /\ page_no p2 = "2"%string /\
         bill_items p1 = items1 /\ bill_items p2 = []).
Proof.
  intros H. apply ocr_webhook_success in H.
  destruct H as (extracted & Hout & Hfor).
  destruct (for_pages_spec extracted 0 [] 0)
    as (entries & Hspec & Hno & Hty & Hall).
  rewrite Hfor in Hspec. inversion Hspec as [[Hpages Htotal]].
  simpl in Hpages, Htotal. subst entries. simpl in Hno.
  exists extracted. repeat split; auto.
  - intros relabelled Hk.
    rewrite (for_pages_keys relabelled extracted 0 [] 0 Hk). exact Hfor.
  - subst extracted.
    destruct (Forall2_pair Hall) as (p1 & p2 & Hp & E1 & E2).
    simpl in E1, E2. rewrite Htotal, Hp. unfold count_items. simpl.
    assert (bill_items p1 = items1) as -> by congruence.
    assert (bill_items p2 = []) as -> by congruence.
    simpl. lia.
  - subst extracted.
    destruct (Forall2_pair Hall) as (p1 & p2 & Hp & E1 & E2).
    simpl in E1, E2. rewrite Hp in Hno. simpl in Hno. inversion Hno.
    exists p1, p2. repeat split; auto; congruence.
Qed.

(** C6 on the sample request: a two-page PDF whose first page yields two
    items and whose second yields none. *)
Lemma C6_sample_request :
  ocr_webhook sample_host sample_pdf [] = (Ok sample_response, sample_log) /\
  total_item_count sample_response
  = count_items (pagewise_line_items sample_response).
Proof.
  assert (H : ocr_webhook sample_host sample_pdf []
              = (Ok sample_response, sample_log))
    by (vm_compute; reflexivity).
  split; [exact H |].
  destruct (@C6_pages_renumbered_and_counted
              sample_host sample_pdf [] sample_log sample_response H)
    as (extracted & _ & _ & _ & _ & Htotal & _).
  exact Htotal.
Defined.

(** C7: when no slice of the text is a word of any of the three
    patterns, the extractor returns the empty list and raises nothing. *)
Theorem C7_no_match_empty_output (t : text) :
  (forall p, In p patterns -> ~ occurs p t) ->
  extract_bill_items_regex t = Ok [].
Proof.
  intros Hno.
  assert (Hnil : forall p, In p patterns -> finditer p t = []).
  { intros p Hp. destruct (finditer p t) as [| m ms] eqn:E; [reflexivity |].
    exfalso. apply (Hno p Hp). apply finditer_occurs. rewrite E. discriminate. }
  destruct (extract_decomposition t) as (ph & ho & iv & -> & Hph & Hho & Hiv).
  rewrite Hnil in Hph, Hho, Hiv by (simpl; auto).
  inversion Hph. inversion Hho. inversion Hiv. reflexivity.
Qed.

(** C7 on a text without any tabular line. *)
Lemma C7_sample_text :
  (forall p, In p patterns -> ~ occurs p (of_string "Thank you")) /\
  extract_bill_items_regex (of_string "Thank you") = Ok [].
Proof.
  assert (H : forall p, In p patterns -> ~ occurs p (of_string "Thank you")).
  { intros p Hp Ho. apply search_occurs in Ho.
    destruct Hp as [<- | [<- | [<- | []]]]; vm_compute in Ho; discriminate. }
  split; [exact H |].
  exact (@C7_no_match_empty_output (of_string "Thank you") H).
Defined.

(** C8: normalizing a name twice is the same as normalizing it once, for
    every string. *)
Theorem C8_normalization_idempotent (s : text) :
  normalize_name (normalize_name s) = normalize_name s.
Proof. apply normalized_fixed, normalize_name_normalized. Qed.

(** C9: on the single line [CBC Test 12/05/2023 1 300 300] the extractor
    returns three records: the pharmacy one and the hospital one, both
    named [CBC Test 12/05/2023], then the investigation one, named
    [CBC Test]; all three with quantity 1, rate 300, amount 300. *)
Theorem C9_three_records_for_one_line :
  let line := of_string "CBC Test 12/05/2023 1 300 300" in
  let with_date :=
    mkItem (of_string "CBC Test 12/05/2023") (1 # 1) (300 # 1) (300 # 1) in
  let without_date :=
    mkItem (of_string "CBC Test") (1 # 1) (300 # 1) (300 # 1) in
  for_matches (finditer pharmacy line) [] = Ok [with_date] /\
  for_matches (finditer hospital line) [] = Ok [with_date] /\
  for_matches (finditer investigation line) [] = Ok [without_date] /\
  extract_bill_items_regex line = Ok [with_date; with_date; without_date].
Proof. repeat split; vm_compute; reflexivity. Qed.

(** C10: the hospital set contains the pharmacy set, and whenever the
    pharmacy pattern has a match in a text the hospital pattern has one
    too; so an output with a pharmacy record has a hospital record. *)
Theorem C10_pharmacy_match_implies_hospital_match (t : text) :
  finditer pharmacy t <> [] ->
  (forall c, in_cset pharmacy_set c = true -> in_cset hospital_set c = true) /\
  finditer hospital t <> [] /\
  exists ph ho iv,
    extract_bill_items_regex t = Ok (ph ++ ho ++ iv) /\
    Forall2 produces (finditer pharmacy t) ph /\
    Forall2 produces (finditer hospital t) ho /\
    Forall2 produces (finditer investigation t) iv /\
    ph <> [] /\ ho <> [].
Proof.
  intros Hph.
  assert (Hho : finditer hospital t <> []).
  { apply finditer_occurs, pharmacy_occurs_hospital, finditer_occurs, Hph. }
  split; [exact hospital_set_covers |]. split; [exact Hho |].
  destruct (extract_decomposition t) as (ph & ho & iv & E & Fph & Fho & Fiv).
  exists ph, ho, iv. repeat split; auto.
  - intros ->. inversion Fph as [Hnil |]. congruence.
  - intros ->. inversion Fho as [Hnil |]. congruence.
Qed.

(** C10 on a line that the pharmacy pattern matches. *)
Lemma C10_sample_line :
  finditer pharmacy (of_string "A 1 2 3") <> [] /\
  finditer hospital (of_string "A 1 2 3") <> [].
Proof.
  assert (H : finditer pharmacy (of_string "A 1 2 3") <> [])
    by (vm_compute; discriminate).
  split; [exact H |].
  exact (proj1 (proj2 (@C10_pharmacy_match_implies_hospital_match
                        (of_string "A 1 2 3") H))).
Defined.

(* ------------------------------------------------------------------ *)
(** * Further properties of the extractor *)

Module LineFacts.

Import Re Builtins App Spec Shape ReFacts NormFacts AppFacts.

(** ** The words of the layouts *)

Lemma space_set_run w lo hi :
  forallb (in_cset [CatSpace]) w = true -> within (length w) (S lo) hi ->
  blank_run w.
Proof.
  intros Hw [Hlo _]. split.
  - intros ->. simpl in Hlo. lia.
  - clear Hlo. induction w as [| c w IH]; [reflexivity |].
    cbn [forallb in_cset existsb in_citem] in *. rewrite orb_false_r in Hw.
    apply andb_prop in Hw. destruct Hw as [-> Hw]. now apply IH.
Qed.

Lemma sem_blanks b caps caps' :
  sem blanks b caps caps' -> caps' = caps /\ blank_run b.
Proof.
  unfold blanks. intros H. inv H. split; [reflexivity |].
  now apply (@space_set_run b 0 None).
Qed.

Lemma blank_run_sem b caps : blank_run b -> sem blanks b caps caps.
Proof.
  intros [Hne Hb]. unfold blanks. constructor.
  - clear Hne. induction b as [| c b IH]; [reflexivity |].
    cbn [forallb in_cset existsb in_citem] in *.
    apply andb_prop in Hb. destruct Hb as [-> Hb]. now rewrite IH.
  - split; [| exact I]. destruct b; [congruence | simpl; lia].
Qed.

Lemma blank_run_starts b rest :
  blank_run b -> starts_with_space (b ++ rest) = true.
Proof.
  intros [Hne Hb]. destruct b as [| c b]; [congruence |].
  simpl in *. now apply andb_prop in Hb.
Qed.

Lemma digit_run_sem d caps : digit_run d -> sem digits d caps caps.
Proof.
  intros [Hne Hd]. unfold digits. constructor.
  - clear Hne. induction d as [| c d IH]; [reflexivity |].
    cbn [forallb in_cset existsb in_citem] in *.
    apply andb_prop in Hd. destruct Hd as [-> Hd]. now rewrite IH.
  - split; [| exact I]. destruct d; [congruence | simpl; lia].
Qed.

Lemma numeral_sem x caps : numeral x -> sem number x caps caps.
Proof.
  intros (ip & Hip & [-> | (fp & Hfp & ->)]); unfold number.
  - rewrite <- (app_nil_r ip). econstructor.
    + now apply digit_run_sem.
    + apply sem_Opt_skip.
  - econstructor; [now apply digit_run_sem |].
    apply sem_Opt_take.
    change (ch "." :: fp) with ([ch "."] ++ fp).
    econstructor; [| now apply digit_run_sem].
    constructor. reflexivity.
Qed.

Lemma sem_triple_word w caps caps' :
  sem triple w caps caps' ->
  exists q b2 r b3 a,
    w = q ++ b2 ++ r ++ b3 ++ a /\
    caps' = ("amount"%string, a) :: ("rate"%string, r) ::
            ("qty"%string, q) :: caps /\
    numeral q /\ blank_run b2 /\ numeral r /\ blank_run b3 /\ numeral a.
Proof.
  unfold triple. intros H. sem_inv.
  repeat match goal with
  | H : sem number _ _ _ |- _ => apply sem_number in H; destruct H as [? ?]
  | H : sem blanks _ _ _ |- _ => apply sem_blanks in H; destruct H as [? ?]
  end.
  subst. unfold bind_group. do 5 eexists.
  repeat (split; [first [reflexivity | eassumption] |]). eassumption.
Qed.

Lemma triple_word_sem q b2 r b3 a caps :
  numeral q -> blank_run b2 -> numeral r -> blank_run b3 -> numeral a ->
  sem triple (q ++ b2 ++ r ++ b3 ++ a) caps
      (("amount"%string, a) :: ("rate"%string, r) ::
       ("qty"%string, q) :: caps).
Proof.
  intros Hq H2 Hr H3 Ha. unfold triple.
  econstructor; [constructor; now apply numeral_sem |].
  econstructor; [now apply blank_run_sem |].
  econstructor; [constructor; now apply numeral_sem |].
  econstructor; [now apply blank_run_sem |].
  constructor. now apply numeral_sem.
Qed.

Lemma name_run w cs lo hi :
  forallb (in_cset cs) w = true -> within (length w) (S lo) hi -> w <> [].
Proof. intros _ [Hlo _] ->. simpl in Hlo. lia. Qed.

Lemma blank_run_head b : blank_run b -> starts_with_space b = true.
Proof.
  intros [Hne Hb]. destruct b as [| c b]; [congruence |].
  simpl in *. now apply andb_prop in Hb.
Qed.

(** Unpack a layout word into its fields. *)
Ltac fields :=
  intros H; sem_inv;
  repeat match goal with
  | H : sem triple _ _ _ |- _ =>
      apply sem_triple_word in H;
      destruct H as (? & ? & ? & ? & ? & ? & ? & ? & ? & ? & ? & ?)
  | H : sem blanks _ _ _ |- _ => apply sem_blanks in H; destruct H as [? ?]
  | H : sem _ _ _ _ |- _ => apply sem_groupless in H; [| reflexivity]
  end;
  subst; unfold bind_group.

Lemma sem_pharmacy_word w caps :
  sem pharmacy w [] caps ->
  exists lead name mid q b2 r b3 a,
    w = lead ++ line_text name mid q b2 r b3 a /\
    caps = bindings name q r a /\ is_line name mid q b2 r b3 a.
Proof.
  unfold pharmacy. fields.
  match goal with
  | |- exists _ _ _ _ _ _ _ _,
         ?l ++ ?n ++ ?m ++ ?q ++ ?b2 ++ ?r ++ ?b3 ++ ?a = _ /\ _ =>
      exists l, n, m, q, b2, r, b3, a
  end.
  split; [reflexivity |]. split; [reflexivity |].
  unfold is_line. repeat (split; [eauto using name_run, forallb_covers, blank_run_head |]).
  assumption.
Qed.

Lemma sem_hospital_word w caps :
  sem hospital w [] caps ->
  exists lead name mid q b2 r b3 a,
    w = lead ++ line_text name mid q b2 r b3 a /\
    caps = bindings name q r a /\ is_line name mid q b2 r b3 a.
Proof.
  unfold hospital. fields.
  match goal with
  | |- exists _ _ _ _ _ _ _ _,
         ?n ++ ?m ++ ?q ++ ?b2 ++ ?r ++ ?b3 ++ ?a = _ /\ _ =>
      exists [], n, m, q, b2, r, b3, a
  end.
  split; [reflexivity |]. split; [reflexivity |].
  unfold is_line. repeat (split; [eauto using name_run, blank_run_head |]).
  assumption.
Qed.

Lemma sem_investigation_word w caps :
  sem investigation w [] caps ->
  exists lead name mid q b2 r b3 a,
    w = lead ++ line_text name mid q b2 r b3 a /\
    caps = bindings name q r a /\ is_line name mid q b2 r b3 a.
Proof.
  unfold investigation. fields.
  match goal with
  | |- exists _ _ _ _ _ _ _ _,
         ?n ++ ?b0 ++ ?d ++ ?b1 ++ ?q ++ ?b2 ++ ?r ++ ?b3 ++ ?a = _ /\ _ =>
      exists [], n, (b0 ++ d ++ b1), q, b2, r, b3, a
  end.
  split; [unfold line_text; rewrite <- !app_assoc; reflexivity |].
  split; [reflexivity |].
  unfold is_line.
  repeat (split; [eauto using name_run, forallb_covers, blank_run_starts |]).
  assumption.
Qed.

Lemma sem_layout_word p w caps :
  In p patterns -> sem p w [] caps ->
  exists lead name mid q b2 r b3 a,
    w = lead ++ line_text name mid q b2 r b3 a /\
    caps = bindings name q r a /\ is_line name mid q b2 r b3 a.
Proof.
  intros [<- | [<- | [<- | []]]];
    [apply sem_pharmacy_word | apply sem_hospital_word
     | apply sem_investigation_word].
Qed.

(** A line is a word of the hospital layout, and of the pharmacy layout
    when its name stays inside the narrower set. *)
Lemma line_sem_hospital name b1 q b2 r b3 a :
  name <> [] -> forallb (in_cset hospital_set) name = true ->
  blank_run b1 -> numeral q -> blank_run b2 -> numeral r -> blank_run b3 ->
  numeral a ->
  sem hospital (line_text name b1 q b2 r b3 a) [] (bindings name q r a).
Proof.
  intros Hne Hn H1 Hq H2 Hr H3 Ha. unfold hospital, line_text.
  econstructor.
  - constructor. constructor; [exact Hn |].
    split; [| exact I]. destruct name; [congruence | simpl; lia].
  - econstructor; [now apply blank_run_sem |].
    now apply triple_word_sem.
Qed.


(** ** Consequences for [finditer] *)

Lemma finditer_fields p t m :
  In p patterns -> In m (finditer p t) ->
  exists lead name mid q b2 r b3 a tail,
    t = lead ++ line_text name mid q b2 r b3 a ++ tail /\
    m_start m <= length lead /\ m_end m + length tail = length t /\
    m_groups m = bindings name q r a /\ is_line name mid q b2 r b3 a.
Proof.
  intros Hp Hm. apply finditer_located in Hm.
  destruct Hm as (pre & w & post & -> & Hs & Hst & Hen).
  destruct (@sem_layout_word p w (m_groups m) Hp Hs)
    as (lead & name & mid & q & b2 & r & b3 & a & -> & Hc & Hl).
  exists (pre ++ lead), name, mid, q, b2, r, b3, a, post.
  split; [now rewrite <- !app_assoc |].
  split; [rewrite length_app; lia |].
  split; [rewrite Hen, Hst, !length_app; lia |].
  split; [exact Hc | exact Hl].
Qed.

Lemma extract_nil t :
  (forall p, In p patterns -> finditer p t = []) ->
  extract_bill_items_regex t = Ok [].
Proof.
  intros Hnil.
  destruct (extract_decomposition t) as (ph & ho & iv & -> & Hph & Hho & Hiv).
  rewrite Hnil in Hph, Hho, Hiv by (simpl; auto).
  inversion Hph. inversion Hho. inversion Hiv. reflexivity.
Qed.

(** ** Counting matches *)

Lemma finditer_span_min r t m :
  In m (finditer r t) -> m_start m + min_len r <= m_end m.
Proof.
  intros Hm. apply finditer_located in Hm.
  destruct Hm as (pre & w & post & _ & Hs & _ & Hen).
  apply sem_min_len in Hs. lia.
Qed.

Lemma in_order_count k ms : forall from upto,
  in_order from upto ms ->
  Forall (fun m => m_start m + k <= m_end m) ms ->
  from <= upto -> from + k * length ms <= upto.
Proof.
  induction ms as [| m ms IH]; intros from upto Hord Hall Hle; simpl length.
  - lia.
  - destruct Hord as (H1 & H2 & H3 & Hrest).
    inversion Hall as [| ? ? Hm Hms]; subst.
    specialize (IH (m_end m) upto Hrest Hms H3).
    rewrite Nat.mul_succ_r. lia.
Qed.

Lemma finditer_count p t :
  In p patterns -> min_len p * length (finditer p t) <= length t.
Proof.
  intros Hp.
  apply (@in_order_count (min_len p) (finditer p t) 0 (length t)).
  - apply finditer_in_order. now apply layout_never_empty.
  - apply Forall_forall. intros m. apply finditer_span_min.
  - lia.
Qed.

(** ** Digits *)

Lemma numeral_has_digit x :
  numeral x -> exists d rest, x = d :: rest /\ Unicode.is_decimal d = true.
Proof.
  intros (ip & [Hne Hip] & Hx).
  destruct ip as [| d ip]; [congruence |].
  simpl in Hip. apply andb_prop in Hip. destruct Hip as [Hd _].
  destruct Hx as [-> | (fp & _ & ->)]; simpl; eauto.
Qed.

(** ** The pipe *)

Lemma hospital_set_is_pharmacy_plus_pipe c :
  in_cset hospital_set c = in_cset pharmacy_set c || (c =? ch "|")%N.
Proof.
  unfold pharmacy_set, hospital_set, in_cset. cbn [existsb].
  unfold lit at 2. cbn [in_citem].
  repeat rewrite orb_false_r.
  destruct (in_citem (rng "A" "Z") c), (in_citem (rng "a" "z") c),
    (in_citem (rng "0" "9") c), (in_citem (lit "-") c),
    (c =? ch "|")%N, (in_citem (lit ".") c), (in_citem (lit "(") c),
    (in_citem (lit ")") c), (in_citem (lit "/") c), (in_citem (lit ",") c),
    (in_citem (lit " ") c); reflexivity.
Qed.

Lemma forallb_without_pipe w :
  forallb (in_cset hospital_set) w = true ->
  contains (ch "|") w = false ->
  forallb (in_cset pharmacy_set) w = true.
Proof.
  unfold contains. induction w as [| c w IH]; cbn [forallb existsb]; [auto |].
  intros H Hp. apply andb_prop in H. destruct H as [Hc Hw].
  apply orb_false_elim in Hp. destruct Hp as [Hcp Hwp].
  rewrite hospital_set_is_pharmacy_plus_pipe, Hcp, orb_false_r in Hc.
  rewrite Hc, (IH Hw Hwp). reflexivity.
Qed.

Lemma contains_app c a b :
  contains c (a ++ b) = contains c a || contains c b.
Proof. unfold contains. apply existsb_app. Qed.

Lemma hospital_then_pharmacy w caps :
  sem hospital w [] caps -> contains (ch "|") w = false ->
  sem pharmacy w [] caps.
Proof.
  unfold pharmacy, hospital. intros H Hp. inv H.
  rewrite contains_app in Hp. apply orb_false_elim in Hp.
  destruct Hp as [Hp _].
  match goal with H : sem (Group _ _) _ _ _ |- _ => inv H end.
  match goal with H : sem (Repeat _ _ _ _) _ _ _ |- _ => inv H end.
  match goal with |- sem _ (?n ++ ?rest) _ _ =>
    change (n ++ rest) with ([] ++ n ++ rest)
  end.
  econstructor; [apply sem_Opt_skip |].
  econstructor; [| eassumption].
  constructor. constructor; [now apply forallb_without_pipe | assumption].
Qed.

Lemma hospital_occurs_pharmacy t :
  contains (ch "|") t = false -> occurs hospital t -> occurs pharmacy t.
Proof.
  intros Hp (pre & w & post & caps & -> & Hs).
  exists pre, w, post, caps. split; [reflexivity |].
  apply hospital_then_pharmacy; [exact Hs |].
  rewrite !contains_app in Hp.
  apply orb_false_elim in Hp. destruct Hp as [_ Hp].
  apply orb_false_elim in Hp. apply Hp.
Qed.

(** ** The record of a match with known fields *)

Lemma item_of_fields m name q r a vq vr va :
  m_groups m = bindings name q r a ->
  float q = Ok vq -> float r = Ok vr -> float a = Ok va ->
  item_of_match m = Ok (mkItem (normalize_name name) vq vr va).
Proof.
  intros Hg Hq Hr Ha. unfold item_of_match, group_text, bindings in *.
  rewrite Hg. simpl. rewrite Hq. simpl. rewrite Hr. simpl. rewrite Ha.
  reflexivity.
Qed.

End LineFacts.

Import Shape Ocr LineFacts.

(** X1: the output is small against the text.  A match of the pharmacy
    or the hospital pattern takes at least 7 characters and one of the
    investigation pattern at least 14, and the matches of one pattern do
    not overlap; so 14 times the number of records is at most 5 times
    the length of the text, and a text of fewer than 7 characters yields
    no record. *)
Theorem X1_output_bounded_by_text_length (t : text) :
  exists items,
    extract_bill_items_regex t = Ok items /\
    7 * length (finditer pharmacy t) <= length t /\
    7 * length (finditer hospital t) <= length t /\
    14 * length (finditer investigation t) <= length t /\
    14 * length items <= 5 * length t /\
    (length t < 7 -> items = []).
Proof.
  destruct (extract_decomposition t) as (ph & ho & iv & E & Hph & Hho & Hiv).
  exists (ph ++ ho ++ iv). split; [exact E |].
  pose proof (@finditer_count pharmacy t (or_introl eq_refl)) as Bp.
  pose proof (@finditer_count hospital t
                (or_intror (or_introl eq_refl))) as Bh.
  pose proof (@finditer_count investigation t
                (or_intror (or_intror (or_introl eq_refl)))) as Bi.
  change (min_len pharmacy) with 7 in Bp.
  change (min_len hospital) with 7 in Bh.
  change (min_len investigation) with 14 in Bi.
  apply Forall2_length in Hph, Hho, Hiv.
  repeat split; try assumption.
  - rewrite !length_app. lia.
  - intros Hlt.
    destruct ph; [| simpl in *; lia].
    destruct ho; [| simpl in *; lia].
    destruct iv; [reflexivity | simpl in *; lia].
Qed.

(** X2: a text without any decimal digit yields no record. *)
Theorem X2_no_digit_no_record (t : text) :
  forallb (fun c => negb (Unicode.is_decimal c)) t = true ->
  extract_bill_items_regex t = Ok [].
Proof.
  intros Hnd. apply extract_nil. intros p Hp.
  destruct (finditer p t) as [| m ms] eqn:E; [reflexivity |].
  exfalso.
  assert (Hm : In m (finditer p t)) by (rewrite E; now left).
  destruct (finditer_fields _ _ Hp Hm)
    as (lead & name & mid & q & b2 & r & b3 & a & tail & Ht & _ & _ & _ & Hl).
  destruct Hl as (_ & _ & _ & Hq & _).
  destruct (numeral_has_digit Hq) as (d & rest & -> & Hd).
  rewrite Ht in Hnd. unfold line_text in Hnd.
  rewrite <- !app_assoc in Hnd.
  do 3 (rewrite forallb_app in Hnd; apply andb_prop in Hnd;
        destruct Hnd as [_ Hnd]).
  cbn [app forallb] in Hnd. rewrite Hd in Hnd. discriminate.
Qed.

(** X2 on a text without digits. *)
Lemma X2_sample_text :
  forallb (fun c => negb (Unicode.is_decimal c)) (of_string "Dr. A / B") = true
  /\ extract_bill_items_regex (of_string "Dr. A / B") = Ok [].
Proof.
  assert (H : forallb (fun c => negb (Unicode.is_decimal c))
                      (of_string "Dr. A / B") = true) by reflexivity.
  split; [exact H |].
  exact (@X2_no_digit_no_record (of_string "Dr. A / B") H).
Defined.

(** X3: every match of a layout, and so every record, is read off a
    slice of the text: the text is [lead ++ name mid qty blanks rate
    blanks amount ++ tail], the match ends where [tail] begins and starts
    inside [lead] (at its end, but for the serial number of the pharmacy
    layout), the four groups are those slices, and the record is the
    normalized name with the parsed numerals. *)
Theorem X3_record_fields_are_slices_of_the_text
        (t : text) (p : regex) (m : Match) :
  In p patterns -> In m (finditer p t) ->
  exists lead name mid q b2 r b3 a tail vq vr va,
    t = lead ++ line_text name mid q b2 r b3 a ++ tail /\
    m_start m <= length lead /\ m_end m + length tail = length t /\
    is_line name mid q b2 r b3 a /\
    m_groups m = bindings name q r a /\
    float q = Ok vq /\ float r = Ok vr /\ float a = Ok va /\
    produces m (mkItem (normalize_name name) vq vr va).
Proof.
  intros Hp Hm.
  destruct (finditer_fields _ _ Hp Hm)
    as (lead & name & mid & q & b2 & r & b3 & a & tail
        & Ht & Hst & Hen & Hg & Hl).
  pose proof Hl as (_ & _ & _ & Hq & _ & Hr & _ & Ha).
  destruct (float_numeral Hq) as (vq & Eq & _).
  destruct (float_numeral Hr) as (vr & Er & _).
  destruct (float_numeral Ha) as (va & Ea & _).
  exists lead, name, mid, q, b2, r, b3, a, tail, vq, vr, va.
  repeat (split; [assumption |]).
  now apply item_of_fields with (q := q) (r := r) (a := a).
Qed.

(** X3 on the hospital match of a one-line text. *)
Lemma X3_sample_match :
  In hospital patterns /\
  In sample_match (finditer hospital (of_string "A 1 2 3")) /\
  exists it, produces sample_match it.
Proof.
  assert (Hp : In hospital patterns) by (simpl; auto).
  assert (Hm : In sample_match (finditer hospital (of_string "A 1 2 3")))
    by (vm_compute; left; reflexivity).
  split; [exact Hp |]. split; [exact Hm |].
  destruct (@X3_record_fields_are_slices_of_the_text
              (of_string "A 1 2 3") hospital sample_match Hp Hm)
    as (lead & name & mid & q & b2 & r & b3 & a & tail & vq & vr & va & H).
  exists (mkItem (normalize_name name) vq vr va). apply H.
Defined.



(** X5: the hospital set is the pharmacy set with the pipe added, and on
    a text without a pipe the two patterns stand or fall together: the
    pharmacy pattern has a match exactly when the hospital pattern has
    one. *)
Theorem X5_without_pipe_pharmacy_iff_hospital (t : text) :
  contains (ch "|") t = false ->
  (finditer pharmacy t <> [] <-> finditer hospital t <> []) /\
  (forall c,
     in_cset hospital_set c = in_cset pharmacy_set c || (c =? ch "|")%N).
Proof.
  intros Hp. split; [| exact hospital_set_is_pharmacy_plus_pipe].
  rewrite !finditer_occurs. split.
  - apply pharmacy_occurs_hospital.
  - now apply hospital_occurs_pharmacy.
Qed.

(** X5 on a text without a pipe. *)
Lemma X5_sample_text :
  contains (ch "|") (of_string "A 1 2 3") = false /\
  (finditer pharmacy (of_string "A 1 2 3") <> [] <->
   finditer hospital (of_string "A 1 2 3") <> []).
Proof.
  assert (H : contains (ch "|") (of_string "A 1 2 3") = false) by reflexivity.
  split; [exact H |].
  exact (proj1 (@X5_without_pipe_pharmacy_iff_hospital
                  (of_string "A 1 2 3") H)).
Defined.

(* ------------------------------------------------------------------ *)
(** * Further properties of the normalization *)

Module TrimFacts.

Import Re Builtins App Spec Shape NormFacts.

Lemma collapse_keeps_text s : forall b,
  filter not_blank (collapse b s) = filter not_blank s.
Proof.
  induction s as [| c s IH]; intros b; [reflexivity |].
  cbn [collapse filter]. unfold not_blank at 2.
  destruct (Unicode.is_space c) eqn:Hc; cbn [negb].
  - destruct b; [apply IH |]. cbn [filter].
    replace (not_blank (ch " ")) with false by reflexivity. apply IH.
  - cbn [filter]. unfold not_blank at 1. rewrite Hc. cbn [negb].
    now rewrite IH.
Qed.

Lemma lstrip_keeps_text s :
  filter not_blank (lstrip s) = filter not_blank s.
Proof.
  induction s as [| c s IH]; [reflexivity |].
  cbn [lstrip]. destruct (Unicode.is_space c) eqn:Hc; [| reflexivity].
  cbn [filter]. unfold not_blank at 2. rewrite Hc. exact IH.
Qed.

Lemma rstrip_keeps_text s :
  filter not_blank (rstrip s) = filter not_blank s.
Proof.
  unfold rstrip. rewrite filter_rev, lstrip_keeps_text, filter_rev.
  apply rev_involutive.
Qed.

Lemma normalize_keeps_text s :
  filter not_blank (normalize_name s) = filter not_blank s.
Proof.
  unfold normalize_name, strip.
  now rewrite sub_blanks, rstrip_keeps_text, lstrip_keeps_text,
    collapse_keeps_text.
Qed.

Lemma no_text_all_blank s :
  filter not_blank s = [] <-> forallb Unicode.is_space s = true.
Proof.
  induction s as [| c s IH]; [simpl; tauto |].
  cbn [filter forallb]. unfold not_blank at 1.
  destruct (Unicode.is_space c); cbn [negb andb]; [exact IH |].
  split; discriminate.
Qed.

Lemma trimmed_blank_is_empty s :
  lstrip s = s -> forallb Unicode.is_space s = true -> s = [].
Proof.
  intros Hl Hb. destruct s as [| c s]; [reflexivity |].
  pose proof (lstrip_no_leading_blank (c :: s)) as Hn.
  rewrite Hl in Hn. simpl in Hn, Hb.
  apply andb_prop in Hb. destruct Hb as [Hc _]. congruence.
Qed.

End TrimFacts.

Import TrimFacts.

(** X6: normalizing a name keeps its non-blank characters, all of them
    and in their order; only blanks are dropped or replaced. *)
Theorem X6_normalization_keeps_non_blank_characters (s : text) :
  filter not_blank (normalize_name s) = filter not_blank s.
Proof.
  unfold normalize_name, strip. rewrite sub_blanks.
  rewrite rstrip_keeps_text, lstrip_keeps_text.
  apply collapse_keeps_text.
Qed.

(** X7: the normalized name is empty exactly when the captured text
    consists of blanks only (or is empty). *)
Theorem X7_normalized_name_empty_iff_all_blank (s : text) :
  normalize_name s = [] <-> forallb Unicode.is_space s = true.
Proof.
  split.
  - intros H. apply no_text_all_blank.
    rewrite <- normalize_keeps_text, H. reflexivity.
  - intros H.
    destruct (normalize_name_normalized s) as (_ & Hl & _).
    apply trimmed_blank_is_empty; [exact Hl |].
    apply no_text_all_blank. rewrite normalize_keeps_text.
    now apply no_text_all_blank.
Qed.

(* ------------------------------------------------------------------ *)
(** * Further properties of the request handler *)

Module RunFacts.

Import Re Builtins App Spec Shape ReFacts AppFacts HandlerFacts.

Lemma for_pages_total extracted :
  exists entries,
    for_pages extracted 0 [] 0 = Ok (entries, count_items entries) /\
    map page_no entries = map str_of_nat (seq 1 (length extracted)) /\
    Forall (fun p => page_type p = "Bill Detail"%string) entries /\
    Forall2 (fun kv p => extract_bill_items_regex (snd kv)
                         = Ok (bill_items p)) extracted entries.
Proof.
  destruct (for_pages_spec extracted 0 [] 0) as (entries & E & H).
  exists entries. split; [exact E | exact H].
Qed.

(** The handler, outcome by outcome. *)
Lemma ocr_webhook_cases h file log :
  match rsplit_last (ch ".") (filename file) with
  | None => ocr_webhook h file log = (Raise rejection, log)
  | Some (_, suffix) =>
      if member (lower suffix) ALLOWED_EXTENSIONS then
        match write_file h (upload_path file) (content file) with
        | Raise e =>
            ocr_webhook h file log
            = (Raise (failure e), log ++ [EvWrite (upload_path file)])
        | Ok _ =>
            if text_eqb (lower suffix) (of_string "pdf") then
              match recognize_pdf h (upload_path file) with
              | Raise e =>
                  ocr_webhook h file log
                  = (Raise (failure e),
                     log ++ [EvWrite (upload_path file);
                             EvPdfOcr (upload_path file)])
              | Ok pages =>
                  exists entries,
                    for_pages (number_pages pages 0) 0 [] 0
                    = Ok (entries, count_items entries) /\
                    ocr_webhook h file log
                    = (Ok (mkResponse true 0 0 0 entries
                                      (count_items entries)),
                       log ++ [EvWrite (upload_path file);
                               EvPdfOcr (upload_path file)]
                           ++ removal h (upload_path file))
              end
            else
              match recognize_image h (content file) with
              | Raise e =>
                  ocr_webhook h file log
                  = (Raise (failure e),
                     log ++ [EvWrite (upload_path file); EvImageOcr])
              | Ok t =>
                  exists entries,
                    for_pages [(KStr "page_1", t)] 0 [] 0
                    = Ok (entries, count_items entries) /\
                    ocr_webhook h file log
                    = (Ok (mkResponse true 0 0 0 entries
                                      (count_items entries)),
                       log ++ [EvWrite (upload_path file); EvImageOcr]
                           ++ removal h (upload_path file))
              end
        end
      else ocr_webhook h file log = (Raise rejection, log)
  end.
Proof.
  unfold ocr_webhook, try_except, bind, lift, raise, upload_path, removal.
  rewrite allowed_file_spec. unfold rsplit1.
  destruct (rsplit_last (ch ".") (filename file)) as [[prefix suffix] |];
    [| reflexivity].
  destruct (member (lower suffix) ALLOWED_EXTENSIONS); [| reflexivity].
  cbn [negb emit ret index nth_error].
  destruct (write_file h _ _) as [[] | e]; [| reflexivity].
  destruct (text_eqb (lower suffix) (of_string "pdf")).
  - unfold simple_pdf_ocr, bind, lift, emit, ret.
    destruct (recognize_pdf h _) as [pages | e];
      [| now rewrite <- app_assoc].
    destruct (for_pages_total (number_pages pages 0)) as (entries & E & _).
    exists entries. split; [exact E |]. rewrite E.
    destruct (path_exists h _); simpl; rewrite <- !app_assoc; reflexivity.
  - unfold simple_image_ocr, bind, lift, emit, ret.
    destruct (recognize_image h _) as [t | e];
      [| now rewrite <- app_assoc].
    destruct (for_pages_total [(KStr "page_1", t)]) as (entries & E & _).
    exists entries. split; [exact E |]. rewrite E.
    destruct (path_exists h _); simpl; rewrite <- !app_assoc; reflexivity.
Qed.

Lemma str_of_nat_injective a b : str_of_nat a = str_of_nat b -> a = b.
Proof.
  unfold str_of_nat. intros H.
  apply DecimalNat.Unsigned.to_uint_inj.
  apply (f_equal NilEmpty.uint_of_string) in H.
  rewrite !DecimalString.NilEmpty.usu in H. congruence.
Qed.

Lemma NoDup_map_injective {A B : Type} (f : A -> B) l :
  (forall x y, f x = f y -> x = y) -> NoDup l -> NoDup (map f l).
Proof.
  intros Hinj. induction 1 as [| x l Hx _ IH]; simpl; constructor; auto.
  intros Hin. apply in_map_iff in Hin. destruct Hin as (y & Hy & Hl).
  apply Hinj in Hy. now subst.
Qed.

Lemma number_pages_texts pages : forall k,
  map snd (number_pages pages k) = pages.
Proof.
  induction pages as [| t pages IH]; intros k; simpl; [reflexivity |].
  now rewrite IH.
Qed.

Lemma Forall2_on_texts {B : Type} (P : text -> B -> Prop)
      (d : list (page_key * text)) :
  forall entries,
    Forall2 (fun kv e => P (snd kv) e) d entries ->
    Forall2 P (map snd d) entries.
Proof.
  induction d as [| kv d IH]; intros entries H; inversion H; subst; simpl;
    constructor; auto.
Qed.

End RunFacts.

Import RunFacts.



(** X9: a request that succeeds had an accepted file name, wrote the
    upload, called exactly one OCR routine, and removed the upload if it
    was there; the answer is flagged successful with all token counts
    zero.  Nothing else is logged. *)
Theorem X9_successful_request_trace
        (h : Host) (file : UploadFile) (log log' : list event)
        (resp : Response) :
  ocr_webhook h file log = (Ok resp, log') ->
  allowed_file (filename file) = Ok true /\
  write_file h (upload_path file) (content file) = Ok tt /\
  is_success resp = true /\
  total_tokens resp = 0 /\ input_tokens resp = 0 /\ output_tokens resp = 0 /\
  exists ocr_event,
    (ocr_event = EvPdfOcr (upload_path file) \/ ocr_event = EvImageOcr) /\
    log' = log ++ [EvWrite (upload_path file); ocr_event]
               ++ (if path_exists h (upload_path file)
                   then [EvRemove (upload_path file)] else []).
Proof.
  intros H. pose proof (ocr_webhook_cases h file log) as C.
  pose proof (allowed_file_spec (filename file)) as A.
  unfold removal in C.
  destruct (rsplit_last (ch ".") (filename file)) as [[prefix suffix] |].
  2: { rewrite C in H. discriminate. }
  destruct (member (lower suffix) ALLOWED_EXTENSIONS).
  2: { rewrite C in H. discriminate. }
  destruct (write_file h (upload_path file) (content file)) as [[] | c].
  2: { rewrite C in H. discriminate. }
  destruct (text_eqb (lower suffix) (of_string "pdf")).
  - destruct (recognize_pdf h (upload_path file)) as [pages | c].
    + destruct C as (entries & _ & C). rewrite C in H.
      inversion H; subst. simpl.
      split; [exact A |]. do 5 (split; [reflexivity |]).
      exists (EvPdfOcr (upload_path file)). auto.
    + rewrite C in H. discriminate.
  - destruct (recognize_image h (content file)) as [t | c].
    + destruct C as (entries & _ & C). rewrite C in H.
      inversion H; subst. simpl.
      split; [exact A |]. do 5 (split; [reflexivity |]).
      exists EvImageOcr. auto.
    + rewrite C in H. discriminate.
Qed.

(** X9 on the sample request. *)
Lemma X9_sample_request :
  ocr_webhook sample_host sample_pdf [] = (Ok sample_response, sample_log) /\
  allowed_file (filename sample_pdf) = Ok true.
Proof.
  assert (H : ocr_webhook sample_host sample_pdf []
              = (Ok sample_response, sample_log))
    by (vm_compute; reflexivity).
  split; [exact H |].
  exact (proj1 (@X9_successful_request_trace
                  sample_host sample_pdf [] sample_log sample_response H)).
Defined.

(** X10: the lower-cased extension alone selects the OCR routine.  A
    successful request for a name ending in [.pdf] (any case) carries one
    page entry per page the PDF stage recognised, in page order, each
    with the records of its page; a successful request for any other
    accepted name carries exactly one entry, numbered ["1"], with the
    records of the image's text, and the total is their number. *)
Theorem X10_extension_selects_the_ocr_routine
        (h : Host) (file : UploadFile) (log log' : list event)
        (resp : Response) (prefix suffix : text) :
  filename file = prefix ++ ch "." :: suffix ->
  contains (ch ".") suffix = false ->
  ocr_webhook h file log = (Ok resp, log') ->
  if text_eqb (lower suffix) (of_string "pdf")
  then
    exists pages,
      recognize_pdf h (upload_path file) = Ok pages /\
      Forall2 (fun t e => extract_bill_items_regex t = Ok (bill_items e))
              pages (pagewise_line_items resp)
  else
    exists t items,
      recognize_image h (content file) = Ok t /\
      extract_bill_items_regex t = Ok items /\
      pagewise_line_items resp = [mkPage "1" "Bill Detail" items] /\
      total_item_count resp = length items.
Proof.
  intros Hf Hnd H. pose proof (ocr_webhook_cases h file log) as C.
  assert (Er : rsplit_last (ch ".") (filename file) = Some (prefix, suffix))
    by (rewrite Hf; now apply rsplit_last_app).
  rewrite Er in C.
  destruct (member (lower suffix) ALLOWED_EXTENSIONS).
  2: { rewrite C in H. discriminate. }
  destruct (write_file h (upload_path file) (content file)) as [[] | c].
  2: { rewrite C in H. discriminate. }
  destruct (text_eqb (lower suffix) (of_string "pdf")).
  - destruct (recognize_pdf h (upload_path file)) as [pages | c].
    2: { rewrite C in H. discriminate. }
    destruct C as (entries & E & C). rewrite C in H.
    inversion H; subst. simpl.
    exists pages. split; [reflexivity |].
    destruct (for_pages_total (number_pages pages 0))
      as (entries' & E' & _ & _ & Hall).
    assert (entries' = entries) by congruence. subst entries'.
    apply (@Forall2_on_texts PageEntry
             (fun t e => extract_bill_items_regex t = Ok (bill_items e)))
      in Hall.
    now rewrite number_pages_texts in Hall.
  - destruct (recognize_image h (content file)) as [t | c].
    2: { rewrite C in H. discriminate. }
    destruct C as (entries & E & C). rewrite C in H.
    inversion H; subst. simpl.
    destruct (for_pages_total [(KStr "page_1", t)])
      as (entries' & E' & Hno & Hty & Hall).
    assert (entries' = entries) by congruence. subst entries'.
    clear H C E E'.
    inversion Hall as [| kv e d rest He Hrest]; subst.
    inversion Hrest; subst. clear Hall Hrest.
    destruct e as [no ty items].
    cbn [page_no bill_items map snd seq length] in He, Hno.
    inversion Hno as [Hone]. apply Forall_inv in Hty.
    cbn [page_type] in Hty. subst no ty.
    cbn [pagewise_line_items total_item_count].
    exists t, items.
    split; [reflexivity |]. split; [exact He |]. split; [reflexivity |].
    unfold count_items, list_sum. cbn [map bill_items fold_right]. lia.
Qed.

(** X10 on an image upload with an upper-case extension. *)
Lemma X10_sample_image :
  ocr_webhook sample_host sample_png [] =
  (Ok (mkResponse true 0 0 0
         [mkPage "1" "Bill Detail" [sample_item; sample_item]] 2),
   [EvWrite (upload_path sample_png); EvImageOcr;
    EvRemove (upload_path sample_png)]) /\
  exists t items,
    recognize_image sample_host (content sample_png) = Ok t /\
    extract_bill_items_regex t = Ok items.
Proof.
  assert (H : ocr_webhook sample_host sample_png [] =
              (Ok (mkResponse true 0 0 0
                     [mkPage "1" "Bill Detail" [sample_item; sample_item]] 2),
               [EvWrite (upload_path sample_png); EvImageOcr;
                EvRemove (upload_path sample_png)]))
    by (vm_compute; reflexivity).
  split; [exact H |].
  pose proof (@X10_extension_selects_the_ocr_routine
                sample_host sample_png [] _ _
                (of_string "scan") (of_string "PNG")
                eq_refl eq_refl H) as X.
  simpl in X. destruct X as (t & items & Ht & Hi & _).
  exists t, items. split; [exact Ht | exact Hi].
Defined.

(** X11: in a successful answer no two page entries carry the same
    [page_no]. *)
Theorem X11_page_numbers_are_distinct
        (h : Host) (file : UploadFile) (log log' : list event)
        (resp : Response) :
  ocr_webhook h file log = (Ok resp, log') ->
  NoDup (map page_no (pagewise_line_items resp)).
Proof.
  intros H. apply ocr_webhook_success in H.
  destruct H as (extracted & _ & E).
  destruct (for_pages_total extracted) as (entries & E' & Hno & _).
  assert (pagewise_line_items resp = entries) as -> by congruence.
  rewrite Hno. apply NoDup_map_injective.
  - apply str_of_nat_injective.
  - apply seq_NoDup.
Qed.

(** X11 on the sample request. *)
Lemma X11_sample_request :
  ocr_webhook sample_host sample_pdf [] = (Ok sample_response, sample_log) /\
  NoDup (map page_no (pagewise_line_items sample_response)).
Proof.
  assert (H : ocr_webhook sample_host sample_pdf []
              = (Ok sample_response, sample_log))
    by (vm_compute; reflexivity).
  split; [exact H |].
  exact (@X11_page_numbers_are_distinct
           sample_host sample_pdf [] sample_log sample_response H).
Defined.

(* ------------------------------------------------------------------ *)
(** * Properties of the OCR helpers and of the configuration *)

Module OcrFacts.

Import Re Builtins App Spec Shape Ocr ReFacts AppFacts HandlerFacts LineFacts.

Lemma text_eqb_eq a : forall b, text_eqb a b = true <-> a = b.
Proof.
  induction a as [| x a IH]; intros [| y b]; simpl;
    try (split; [discriminate | congruence]); [tauto |].
  rewrite andb_true_iff, N.eqb_eq, IH. split.
  - intros [-> ->]. reflexivity.
  - intros E. inversion E. auto.
Qed.

Lemma member_In x l : member x l = true <-> In x l.
Proof.
  unfold member. rewrite existsb_exists. split.
  - intros (y & Hy & E). apply text_eqb_eq in E. now subst.
  - intros H. exists x. split; [exact H | now apply text_eqb_eq].
Qed.

(** ** The keys of a PDF dictionary *)

Lemma number_pages_length pages : forall k,
  length (number_pages pages k) = length pages.
Proof.
  induction pages as [| t pages IH]; intros k; simpl; [| rewrite IH];
    reflexivity.
Qed.

Lemma number_pages_keys pages : forall k,
  map fst (number_pages pages k) = map KInt (seq (k + 1) (length pages)).
Proof.
  induction pages as [| t pages IH]; intros k; simpl; [reflexivity |].
  rewrite IH. reflexivity.
Qed.

Lemma number_pages_below pages : forall k n,
  n <= k -> dict_get (KInt n) (number_pages pages k) = None.
Proof.
  induction pages as [| t pages IH]; intros k n Hn; simpl; [reflexivity |].
  destruct (Nat.eqb_spec n (k + 1)); [lia |]. apply IH. lia.
Qed.

Lemma number_pages_get pages : forall k i,
  dict_get (KInt (k + 1 + i)) (number_pages pages k) = nth_error pages i.
Proof.
  induction pages as [| t pages IH]; intros k i; simpl.
  - now destruct i.
  - destruct i as [| i]; simpl.
    + rewrite Nat.add_0_r, Nat.eqb_refl. reflexivity.
    + destruct (Nat.eqb_spec (k + 1 + S i) (k + 1)); [lia |].
      replace (k + 1 + S i) with (S k + 1 + i) by lia. apply IH.
Qed.

Lemma number_pages_no_string pages s : forall k,
  dict_get (KStr s) (number_pages pages k) = None.
Proof.
  induction pages as [| t pages IH]; intros k; simpl; auto.
Qed.

(** ** The first existing path *)



(** ** Joining detections *)

Lemma join_cons sep p q rest :
  join sep (p :: q :: rest) = p ++ sep ++ join sep (q :: rest).
Proof. reflexivity. Qed.

Lemma join_prefix sep l1 : forall l2,
  l2 <> [] -> exists pre, join sep (l1 ++ l2) = pre ++ join sep l2.
Proof.
  induction l1 as [| p l1 IH]; intros l2 Hne.
  - now exists [].
  - destruct (IH l2 Hne) as [pre E].
    destruct (l1 ++ l2) as [| q rest] eqn:El.
    + apply app_eq_nil in El. destruct El as [_ ->]. congruence.
    + exists (p ++ sep ++ pre). simpl app at 1. rewrite El, join_cons, E.
      now rewrite <- !app_assoc.
Qed.

Lemma join_suffix sep l2 : forall l3,
  l2 <> [] -> exists post, join sep (l2 ++ l3) = join sep l2 ++ post.
Proof.
  induction l2 as [| p l2 IH]; intros l3 Hne; [congruence |].
  destruct l2 as [| q l2].
  - destruct l3 as [| r l3].
    + exists []. simpl. now rewrite app_nil_r.
    + exists (sep ++ join sep (r :: l3)). reflexivity.
  - destruct (IH l3) as [post E]; [discriminate |].
    exists post. simpl app in *. rewrite !join_cons, E.
    now rewrite <- !app_assoc.
Qed.

Lemma line_yields_record pre name b1 q b2 r b3 a post :
  name <> [] -> forallb (in_cset hospital_set) name = true ->
  blank_run b1 -> numeral q -> blank_run b2 -> numeral r ->
  blank_run b3 -> numeral a ->
  exists items,
    extract_bill_items_regex (pre ++ line_text name b1 q b2 r b3 a ++ post)
    = Ok items /\ 1 <= length items.
Proof.
  intros Hne Hn H1 Hq H2 Hr H3 Ha.
  set (t := pre ++ line_text name b1 q b2 r b3 a ++ post).
  destruct (extract_decomposition t) as (ph & ho & iv & E & _ & Hho & _).
  exists (ph ++ ho ++ iv). split; [exact E |].
  assert (Hh : finditer hospital t <> []).
  { apply finditer_occurs.
    exists pre, (line_text name b1 q b2 r b3 a), post, (bindings name q r a).
    split; [reflexivity |]. now apply line_sem_hospital. }
  apply Forall2_length in Hho. rewrite !length_app.
  destruct (finditer hospital t); [congruence | simpl in Hho; lia].
Qed.

End OcrFacts.

Import OcrFacts.

(** X12: the dictionary [simple_pdf_ocr] returns has one entry per page,
    keyed 1, 2, ... in page order: key [i + 1] holds the text of page
    [i], and neither key 0 nor any string key is present.  The call
    logs one OCR event. *)
Theorem X12_pdf_pages_are_keyed_from_one
        (h : Host) (p : path) (log : list event) (pages : list text) :
  recognize_pdf h p = Ok pages ->
  exists d,
    simple_pdf_ocr h p log = (Ok d, log ++ [EvPdfOcr p]) /\
    map fst d = map KInt (seq 1 (length pages)) /\
    map snd d = pages /\
    (forall i, dict_get (KInt (S i)) d = nth_error pages i) /\
    dict_get (KInt 0) d = None /\
    (forall s, dict_get (KStr s) d = None).
Proof.
  intros E. exists (number_pages pages 0).
  unfold simple_pdf_ocr, bind, emit, lift, ret. rewrite E.
  split; [reflexivity |].
  split; [apply (number_pages_keys pages 0) |].
  split; [apply number_pages_texts |].
  split; [intros i; apply (number_pages_get pages 0 i) |].
  split; [now apply number_pages_below |].
  intros s. apply number_pages_no_string.
Qed.

(** X12 on the two-page sample. *)
Lemma X12_sample_pdf :
  recognize_pdf sample_host (upload_path sample_pdf)
  = Ok [of_string "A 1 2 3"; of_string "Thank you"] /\
  exists d,
    simple_pdf_ocr sample_host (upload_path sample_pdf) [] =
    (Ok d, [EvPdfOcr (upload_path sample_pdf)]) /\
    dict_get (KInt 2) d = Some (of_string "Thank you").
Proof.
  assert (H : recognize_pdf sample_host (upload_path sample_pdf)
              = Ok [of_string "A 1 2 3"; of_string "Thank you"])
    by reflexivity.
  split; [exact H |].
  destruct (@X12_pdf_pages_are_keyed_from_one
              sample_host (upload_path sample_pdf) [] _ H)
    as (d & E & _ & _ & G & _).
  exists d. split; [exact E | exact (G 1)].
Defined.

(** X13: [allowed_file] never raises (its index [1] is evaluated only
    when the name has a dot, and then the split has two parts), and it
    answers [True] exactly for the names [prefix.suffix] whose suffix has
    no dot and is, lower-cased, one of the allowed extensions. *)
Theorem X13_allowed_file_total_and_exact (f : text) :
  (allowed_file f = Ok true \/ allowed_file f = Ok false) /\
  (allowed_file f = Ok true <->
   exists prefix suffix,
     f = prefix ++ ch "." :: suffix /\
     contains (ch ".") suffix = false /\
     In (lower suffix) ALLOWED_EXTENSIONS).
Proof.
  rewrite allowed_file_spec.
  destruct (rsplit_last (ch ".") f) as [[prefix suffix] |] eqn:E.
  - apply rsplit_last_some in E as E'. destruct E' as [Hf Hnd].
    split; [destruct (member _ _); auto |].
    split.
    + intros H.
      assert (Hm : member (lower suffix) ALLOWED_EXTENSIONS = true)
        by congruence.
      apply member_In in Hm.
      exists prefix, suffix. auto.
    + intros (prefix' & suffix' & Hf' & Hnd' & Hin).
      pose proof (@rsplit_last_app (ch ".") prefix' suffix' Hnd') as E2.
      rewrite <- Hf', E in E2. inversion E2; subst.
      apply member_In in Hin. now rewrite Hin.
  - split; [auto |]. split; [discriminate |].
    intros (prefix & suffix & Hf & Hnd & _).
    pose proof (@rsplit_last_app (ch ".") prefix suffix Hnd) as E2.
    rewrite <- Hf, E in E2. discriminate.
Qed.

(** X14: the reader is created at most once.  A call constructs a
    reader only when none is stored and EasyOCR is available; once a
    call has returned a reader, every later call returns that same
    reader without constructing; a failed construction leaves the
    globals as they were; and without EasyOCR the answer is [None]. *)
Theorem X14_reader_is_created_at_most_once
        (R : Type) (c1 c2 : result R) (g : Globals R) :
  let '(res, g1, called) := get_ocr_reader c1 g in
  HAS_EASYOCR g1 = HAS_EASYOCR g /\
  (called = true <-> ocr_reader g = None /\ HAS_EASYOCR g = true) /\
  (forall r, res = Ok (Some r) ->
     ocr_reader g1 = Some r /\
     get_ocr_reader c2 g1 = (Ok (Some r), g1, false)) /\
  (forall e, res = Raise e -> g1 = g) /\
  (res = Ok None <-> ocr_reader g = None /\ HAS_EASYOCR g = false).
Proof.
  destruct g as [has [r0 |]]; unfold get_ocr_reader; simpl.
  - repeat split; try discriminate; try tauto.
    + intros [H _]. discriminate.
    + inversion H; subst. reflexivity.
    + inversion H; subst. reflexivity.
    + intros [H _]. discriminate.
  - destruct has; [destruct c1 as [r | e] |]; simpl;
      repeat split; try discriminate; try tauto; try congruence;
      try (intros [_ H]; discriminate).
Qed.


(** X16: EasyOCR detections are joined with line feeds, and a line feed
    is a blank for the patterns.  So when four consecutive detections
    read a name (over the hospital set) and three numerals, the text of
    the pass yields at least one record, whatever was detected before
    and after. *)
Theorem X16_fields_detected_apart_are_still_a_line
        (before after : list Detection) (dn dq dr da : Detection) :
  det_text dn <> [] ->
  forallb (in_cset hospital_set) (det_text dn) = true ->
  numeral (det_text dq) -> numeral (det_text dr) -> numeral (det_text da) ->
  exists pre post items,
    easyocr_text (before ++ [dn; dq; dr; da] ++ after)
    = pre ++ line_text (det_text dn) LF (det_text dq) LF (det_text dr) LF
                       (det_text da) ++ post /\
    extract_bill_items_regex
      (easyocr_text (before ++ [dn; dq; dr; da] ++ after)) = Ok items /\
    1 <= length items.
Proof.
  intros Hne Hn Hq Hr Ha. unfold easyocr_text.
  rewrite !map_app. cbn [map].
  set (fields := [det_text dn; det_text dq; det_text dr; det_text da]).
  destruct (@join_prefix LF (map det_text before)
              (fields ++ map det_text after)) as [pre Epre].
  { discriminate. }
  destruct (@join_suffix LF fields (map det_text after)) as [post Epost].
  { discriminate. }
  assert (Et : join LF (map det_text before ++ fields ++ map det_text after)
               = pre ++ line_text (det_text dn) LF (det_text dq) LF
                                  (det_text dr) LF (det_text da) ++ post).
  { rewrite Epre, Epost. unfold fields, line_text. cbn [join].
    now rewrite <- !app_assoc. }
  assert (Hlf : blank_run LF) by (split; [discriminate | reflexivity]).
  destruct (@line_yields_record pre (det_text dn) LF (det_text dq) LF
              (det_text dr) LF (det_text da) post)
    as (items & E & L); auto.
  exists pre, post, items. rewrite Et. auto.
Qed.

(** X16 on four detections that spell one line. *)
Lemma X16_sample_detections :
  exists items,
    extract_bill_items_regex (easyocr_text sample_detections) = Ok items /\
    1 <= length items.
Proof.
  assert (Hd : forall x, x <> [] -> forallb Unicode.is_decimal x = true ->
                         numeral x).
  { intros x H1 H2. exists x. split; [split; assumption | now left]. }
  destruct (@X16_fields_detected_apart_are_still_a_line
              [] []
              (mkDetection [] (of_string "Syrup") (9 # 10))
              (mkDetection [] (of_string "2") (9 # 10))
              (mkDetection [] (of_string "10.5") (8 # 10))
              (mkDetection [] (of_string "21") (9 # 10)))
    as (pre & post & items & _ & E & L).
  - discriminate.
  - reflexivity.
  - apply Hd; [discriminate | reflexivity].
  - exists (of_string "10"). split; [split; [discriminate | reflexivity] |].
    right. exists (of_string "5").
    split; [split; [discriminate | reflexivity] | reflexivity].
  - apply Hd; [discriminate | reflexivity].
  - exists items. split; [exact E | exact L].
Defined.
